(** * LiveTraffic weather acquisition: a shallow embedding of LTWeather.cpp

    The development follows the source file top down:
    - [StdString]: the [std::string] operations the scanner relies on;
    - [GetXMLValue]: the tag scanner;
    - [WeatherProcessResponse]: the response interpreter;
    - [WeatherFetch]: the worker with its widening loop;
    - [WeatherUpdate]: the coordinator guarding the single future.

    After these come the self-contained parts of the other sources:
    - LiveTraffic.h: [strAtMost] and [push_back_unique];
    - LTImgWindow.h: [WndRect], [toPosMode], [toDeco] and [toLayer];
    - ACInfoWnd.cpp: [ACIWnd.SearchAndSetFlightData] with [SetAcKey],
      [ClearAcKey] and [GetWndTitle], and the static functions
      [ToggleHideShowAll] and [CloseAll].

    Conventions.  A [std::string] is a [string]; a [size_type] position is a
    [nat] and the value [npos] returned by [find] is [None] (buffers are far
    shorter than [2^64], so no position arithmetic wraps).  The C++ types
    [float] and [double] are both carried in binary64 ([PrimFloat.float]):
    every binary32 value is a binary64 value and comparisons agree; the
    rounding performed by a [(float)] conversion is a parameter. *)

From Stdlib Require Import List Arith Lia ZArith Bool Floats Uint63.
From Stdlib Require Import Ascii String.
Set Warnings "-inexact-float".
Import ListNotations.
Local Open Scope list_scope.
Local Open Scope string_scope.

(** ** std::string *)

Module StdString.

(** [s.find(pat, pos)]: first position [>= pos] where [pat] starts. *)
Definition find (s pat : string) (pos : nat) : option nat :=
  index pos pat s.

(** [s.find(c, pos)] for a single character. *)
Definition find_char (s : string) (c : ascii) (pos : nat) : option nat :=
  index pos (String c EmptyString) s.

(** [s.substr(pos, n)], used here only with [pos <= s.size()]. *)
Definition substr (s : string) (pos n : nat) : string :=
  substring pos n s.

(** [s.empty()] *)
Definition empty (s : string) : bool :=
  match s with EmptyString => true | String _ _ => false end.

(** [pat] starts at position [p] of [s]. *)
Definition occurs_at (s pat : string) (p : nat) : Prop :=
  exists u v, s = u ++ pat ++ v /\ length u = p.

End StdString.
Import StdString.

(** ** The tag scanner *)

(** [GetXMLValue(_r, _tag, pos)]: the text between [_tag] and the next ['<'].
    The cursor [pos] is passed by reference; the second component of the
    result is its value on return. *)
Definition GetXMLValue (_r _tag : string) (pos : nat) : string * nat :=
  match find _r _tag pos with
  | None => ("", pos)                      (* didn't find it: [pos] untouched *)
  | Some p =>
      let startPos := p + length _tag in
      match find_char _r "<"%char startPos with
      | Some pos' => (substr _r startPos (pos' - startPos), pos')
      | None => ("", 0)                    (* [pos] held npos: reset *)
      end
  end.

(** ** Program state, exceptions, log *)

(** C++ exceptions as far as the handlers of [WeatherFetch] tell them apart. *)
Inductive exception : Type :=
| StdException (what : string)      (* derived from [std::exception] *)
| OtherException.                   (* anything else, caught by [catch (...)] *)

Inductive logLevelTy : Type := logDEBUG | logINFO | logWARN | logERR | logFATAL.

(** The messages this file hands to [LOG_MSG], with their arguments. *)
Inductive LogMsg : Type :=
| ERR_CURL_EASY_INIT
| ERR_CURL_DISABLE_REV_QU
| ERR_CURL_NOVERCHECK (cc : Z) (errtxt : string)
| ERR_WEATHER_REQU (httpResponse : Z)
| ERR_WEATHER_ERROR (val : string)
| WARN_NO_WEATHER (radius_nm : float)
| MSG_FAILED_WITH_EXCEPTION (what : string)
| MSG_FAILED_WITH_UNKNOWN_EXCEPTION.

(** Arguments of [dataRefs.SetWeather]. *)
Record Weather : Type := mkWeather {
  hPa : float;
  wLat : float;
  wLon : float;
  stationId : string;
  METAR : string
}.

(** Values substituted into [WEATHER_URL], in the order radius, longitude,
    latitude.  The formatting into text is not modelled. *)
Record Url : Type := mkUrl {
  radialDistance : float;
  urlLon : float;
  urlLat : float
}.

(** What one [curl_easy_perform] sends: the options set on the handle. *)
Record Request : Type := mkRequest {
  rqUrl : Url;
  rqTimeout : Z;
  rqNoRevoke : bool
}.

(** What one [curl_easy_perform] brings back. *)
Record Transfer : Type := mkTransfer {
  cc : Z;                      (* CURLcode *)
  errtxt : string;             (* written to CURLOPT_ERRORBUFFER *)
  chunks : list string;        (* data passed to the write callback, in order *)
  responseCode : Z             (* CURLINFO_RESPONSE_CODE *)
}.

(** Observable actions.  [EvSetUrl] is [curl_easy_setopt] with
    [CURLOPT_URL], that is one request being set up; [EvPerform] is one
    [curl_easy_perform]; [EvProcess] marks the entry into
    [WeatherProcessResponse] with its argument. *)
Inductive Event : Type :=
| EvLog (lvl : logLevelTy) (msg : LogMsg)
| EvSetUrl (url : Url)
| EvPerform (rq : Request)
| EvProcess (_r : string)
| EvSetWeather (wx : Weather).

(** The part of [dataRefs] this file touches, and the actions so far,
    oldest first. *)
Record World : Type := mkWorld {
  netwTimeout : Z;
  weather : Weather;
  trace : list Event
}.

(** The world after further actions that leave [dataRefs] alone. *)
Definition extend (w : World) (evs : list Event) : World :=
  mkWorld (netwTimeout w) (weather w) (trace w ++ evs)%list.

(** The world after [wx] has been published. *)
Definition publish (wx : Weather) (w : World) : World :=
  mkWorld (netwTimeout w) wx (trace w ++ [EvSetWeather wx])%list.

Inductive Result (A : Type) : Type :=
| Ok (a : A)
| Throw (e : exception)
| OutOfFuel.
Arguments Ok {A} a.
Arguments Throw {A} e.
Arguments OutOfFuel {A}.

(** Computations over a state [S] that may throw.  The state reached when
    the exception is thrown is kept, as in C++. *)
Definition M (S A : Type) : Type := S -> Result A * S.

Definition ret {S A : Type} (a : A) : M S A := fun s => (Ok a, s).

Definition bind {S A B : Type} (c : M S A) (k : A -> M S B) : M S B :=
  fun s =>
    match c s with
    | (Ok a, s') => k a s'
    | (Throw e, s') => (Throw e, s')
    | (OutOfFuel, s') => (OutOfFuel, s')
    end.

Definition throw {S A : Type} (e : exception) : M S A := fun s => (Throw e, s).

Declare Scope monad_scope.
Delimit Scope monad_scope with monad.
Notation "x <- c ;; k" := (bind c (fun x => k))
  (at level 61, c at next level, right associativity) : monad_scope.
Notation "' pat <- c ;; k" := (bind c (fun x => match x with pat => k end))
  (at level 61, pat pattern, c at next level, right associativity) : monad_scope.
Notation "c ;; k" := (bind c (fun _ => k))
  (at level 61, right associativity) : monad_scope.
Local Open Scope monad_scope.

Definition emit (ev : Event) : M World unit :=
  fun w => (Ok tt, extend w [ev]).

Definition LOG_MSG (lvl : logLevelTy) (msg : LogMsg) : M World unit :=
  emit (EvLog lvl msg).

(** [dataRefs.GetNetwTimeout()] *)
Definition GetNetwTimeout : M World Z := fun w => (Ok (netwTimeout w), w).

(** Modelled from the spec: the body of [DataRefs::SetWeather] is not part of
    the sources at hand; the spec describes it as the sink-write operation
    accepting [(pressureHpa, lat, lon, stationId, rawText)].  It replaces the
    published weather. *)
Definition SetWeather (hPa lat lon : float) (stationId METAR : string)
  : M World unit :=
  fun w => (Ok tt, publish (mkWeather hPa lat lon stationId METAR) w).

(** ** What the code calls but does not define *)

(** Library and platform behaviour the functions below depend on. *)
Record Env : Type := mkEnv {
  (** [std::stof]: the converted value, or the exception it throws
      ([std::invalid_argument], [std::out_of_range]). *)
  stof : string -> exception + float;
  (** The conversion [(float)x]: rounding of a binary64 to binary32. *)
  to_float : float -> float;
  (** [LTOnlineChannel::IsRevocationError], declared in LTChannel.h. *)
  IsRevocationError : string -> bool;
  (** Whether [curl_easy_init] hands out a handle. *)
  curl_easy_init_ok : bool;
  (** The outcome of the [k]-th transfer on the handle for a request. *)
  curl_transfer : nat -> Request -> Transfer
}.

(** Modelled from the spec: Constants.h, which defines [HPA_per_INCH], is not
    part of the sources at hand; the spec gives the inches-of-mercury to
    hectopascal factor as 33.8639. *)
Definition HPA_per_INCH : float := 33.8639%float.

(** Modelled from the spec: [HTTP_OK] comes from Constants.h as well; the
    spec names the status as HTTP 200. *)
Definition HTTP_OK : Z := 200%Z.

Definition CURLE_OK : Z := 0%Z.

(** Maximum search radius [nm] *)
Definition MAX_WEATHER_RADIUS_NM : float := 100%float.

Definition NAN : float := PrimFloat.nan.

(** Run a computation on the globals of a larger state. *)
Definition lift {S A : Type} (get : S -> World) (set : World -> S -> S)
  (c : M World A) : M S A :=
  fun s => let '(r, w) := c (get s) in (r, set w s).

(** The value of a throwing library call. *)
Definition call {S A : Type} (r : exception + A) : M S A :=
  match r with inl e => throw e | inr a => ret a end.

Section Code.

Context (E : Env).

(** *** The response interpreter *)

(** The statements of [WeatherProcessResponse] from "find the pressure"
    on, entered with the cursor the error scan left behind. *)
Definition WeatherProcessResponse_pressure (_r : string) (pos : nat)
  : M World bool :=
  let lat := NAN in
  let lon := NAN in
  let '(val, pos) := GetXMLValue _r "<altim_in_hg>" pos in
  if negb (empty val) then
    f <- call (stof E val) ;;
    let hPa := to_float E (f * to_float E HPA_per_INCH)%float in
    (* start once again from the beginning of the buffer *)
    let pos := 0 in
    let '(METAR, pos) := GetXMLValue _r "<raw_text>" pos in
    let '(stationId, pos) := GetXMLValue _r "<station_id>" pos in
    let '(val, pos) := GetXMLValue _r "<latitude>" pos in
    lat <- (if negb (empty val) then call (stof E val) else ret lat) ;;
    let '(val, pos) := GetXMLValue _r "<longitude>" pos in
    lon <- (if negb (empty val) then call (stof E val) else ret lon) ;;
    SetWeather hPa lat lon stationId METAR ;;
    ret true
  else
    (* didn't find weather! *)
    ret false.

Definition WeatherProcessResponse (_r : string) : M World bool :=
  emit (EvProcess _r) ;;
  (* Any error? *)
  let pos := 0 in
  let '(val, pos) := GetXMLValue _r "<error>" pos in
  if negb (empty val) then
    LOG_MSG logERR (ERR_WEATHER_ERROR val) ;;
    ret false
  else
    WeatherProcessResponse_pressure _r pos.

(** *** The worker *)

(** CURL callback just adding up data: the new buffer and the number of
    bytes consumed. *)
Definition WeatherFetchCB (ptr : string) (readBuf : string) : string * nat :=
  (readBuf ++ ptr, length ptr).

(** The state of the easy handle that matters between calls. *)
Record CURL : Type := mkCURL {
  sslNoRevoke : bool;          (* CURLSSLOPT_NO_REVOKE set *)
  transfersDone : nat;
  lastResponseCode : Z
}.

(** The URL arguments; the radius goes from nautical to statute miles. *)
Definition weather_url (_radius_nm _lon _lat : float) : Url :=
  mkUrl (to_float E (_radius_nm / to_float E 1.151)%float) _lon _lat.

(** [curl_easy_perform]: the transfer is recorded, its data goes through
    the write callback into [readBuf], the error text into the error
    buffer.  The callback always consumes all it is given, so the transfer
    is never cut short by it. *)
Definition curl_easy_perform (h : CURL) (url : Url) (tmo : Z)
  (readBuf : string) : M World (Z * CURL * string * string) :=
  let rq := mkRequest url tmo (sslNoRevoke h) in
  let t := curl_transfer E (transfersDone h) rq in
  let readBuf' :=
    fold_left (fun buf ptr => fst (WeatherFetchCB ptr buf)) (chunks t) readBuf in
  emit (EvPerform rq) ;;
  ret (cc t,
       mkCURL (sslNoRevoke h) (S (transfersDone h)) (responseCode t),
       readBuf', errtxt t).

(** Variables of [WeatherFetch] declared outside the [try] block and the
    globals it works on. *)
Record Frame : Type := mkFrame {
  globals : World;
  bRet : bool
}.

Definition glob {A : Type} (c : M World A) : M Frame A :=
  lift globals (fun w fr => mkFrame w (bRet fr)) c.

Definition set_bRet (b : bool) : M Frame unit :=
  fun fr => (Ok tt, mkFrame (globals fr) b).

(** Variables of the [try] block that live across loop passes. *)
Record Locals : Type := mkLocals {
  radius_nm : float;           (* the parameter [_radius_nm], rewritten *)
  readBuf : string;
  curl_errtxt : string;
  pCurl : CURL
}.

(** The block "perform the HTTP get request": one transfer, and a second
    one with revocation checks off if the first fails on them.  Returns
    [cc], the handle, [readBuf] and [curl_errtxt]. *)
Definition WeatherFetch_perform (h : CURL) (url : Url) (tmo : Z)
  (readBuf : string) : M World (Z * CURL * string * string) :=
  '(cc, h, buf, err) <- curl_easy_perform h url tmo readBuf ;;
  if negb (cc =? CURLE_OK)%Z then
    '(cc, h, buf, err) <-
      (* problem with querying revocation list? *)
      (if IsRevocationError E err then
         (* try not to query revoke list, and just give it another try *)
         let h := mkCURL true (transfersDone h) (lastResponseCode h) in
         LOG_MSG logWARN ERR_CURL_DISABLE_REV_QU ;;
         curl_easy_perform h url tmo buf
       else ret (cc, h, buf, err)) ;;
    (* if (still) error, then log error *)
    (if negb (cc =? CURLE_OK)%Z
     then LOG_MSG logERR (ERR_CURL_NOVERCHECK cc err)
     else ret tt) ;;
    ret (cc, h, buf, err)
  else ret (cc, h, buf, err).

(** One pass through the body of the [do ... while (bRepeat)] loop; the
    first component of the result is [bRepeat].  Formatting the URL into
    [url], [readBuf.reserve] and the options that are the same in every
    pass leave no mark here. *)
Definition WeatherFetch_pass (_lat _lon : float) (l : Locals)
  : M Frame (bool * Locals) :=
  (* put together the URL and prepare the handle *)
  let url := weather_url (radius_nm l) _lon _lat in
  tmo <- glob GetNetwTimeout ;;
  glob (emit (EvSetUrl url)) ;;
  (* perform the HTTP get request *)
  '(cc, h, buf, err) <- glob (WeatherFetch_perform (pCurl l) url tmo (readBuf l)) ;;
  let l' := mkLocals (radius_nm l) buf err h in
  if (cc =? CURLE_OK)%Z then
    (* CURL was OK, now check HTTP response code *)
    let httpResponse := lastResponseCode h in
    if negb (httpResponse =? HTTP_OK)%Z then
      glob (LOG_MSG logERR (ERR_WEATHER_REQU httpResponse)) ;;
      ret (false, l')
    else
      (* Success: Process data *)
      b <- glob (WeatherProcessResponse buf) ;;
      set_bRet b ;;
      (* Not found weather yet? *)
      if negb b then
        glob (LOG_MSG logWARN (WARN_NO_WEATHER (radius_nm l))) ;;
        if (radius_nm l <? MAX_WEATHER_RADIUS_NM)%float then
          ret (true, mkLocals MAX_WEATHER_RADIUS_NM buf err h)
        else ret (false, l')
      else ret (false, l')
  else ret (false, l').

(** [do { pass } while (bRepeat);] *)
Fixpoint WeatherFetch_loop (fuel : nat) (_lat _lon : float) (l : Locals)
  : M Frame Locals :=
  match fuel with
  | 0 => fun fr => (OutOfFuel, fr)
  | S fuel' =>
      '(bRepeat, l') <- WeatherFetch_pass _lat _lon l ;;
      if bRepeat : bool then WeatherFetch_loop fuel' _lat _lon l'
      else ret l'
  end.

(** The [try] block.  [Some v] stands for a [return v] executed inside
    the block, [None] for leaving it at its end.  [curl_errtxt] starts
    uninitialised in the source; it is read only after a failed transfer
    has written it. *)
Definition WeatherFetch_try (fuel : nat) (_lat _lon _radius_nm : float)
  : M Frame (option bool) :=
  if negb (curl_easy_init_ok E) then
    glob (LOG_MSG logERR ERR_CURL_EASY_INIT) ;;
    ret (Some false)
  else
    let pCurl := mkCURL false 0 0%Z in
    (* Loop in case we need to re-do a request with larger radius *)
    WeatherFetch_loop fuel _lat _lon (mkLocals _radius_nm "" "" pCurl) ;;
    (* cleanup CURL handle *)
    ret None.

(** [WeatherFetch]: the thread main function. *)
Definition WeatherFetch (fuel : nat) (_lat _lon _radius_nm : float)
  : M World bool :=
  fun w =>
    match WeatherFetch_try fuel _lat _lon _radius_nm (mkFrame w false) with
    | (Ok (Some v), fr) => (Ok v, globals fr)
    | (Ok None, fr) => (Ok (bRet fr), globals fr)
    | (Throw (StdException what), fr) =>
        (LOG_MSG logERR (MSG_FAILED_WITH_EXCEPTION what) ;; ret (bRet fr))
          (globals fr)
    | (Throw OtherException, fr) =>
        (LOG_MSG logERR MSG_FAILED_WITH_UNKNOWN_EXCEPTION ;; ret (bRet fr))
          (globals fr)
    | (OutOfFuel, fr) => (OutOfFuel, globals fr)
    end.

(** *** The coordinator *)

(** Modelled from the spec: [positionTy] is declared in CoordCalc.h, which
    is not part of the sources at hand; the spec has it supply the current
    position, of which [lat()] and [lon()] are read here. *)
Record positionTy : Type := mkPos {
  lat : float;
  lon : float
}.

Inductive future_status : Type := fs_ready | fs_timeout | fs_deferred.

Definition future_status_eqb (a b : future_status) : bool :=
  match a, b with
  | fs_ready, fs_ready | fs_timeout, fs_timeout | fs_deferred, fs_deferred => true
  | _, _ => false
  end.

(** The shared state behind a valid [std::future<bool>]: the call it
    stands for and what a poll of it reports. *)
Record future : Type := mkFuture {
  futCall : float * float * float;     (* arguments of [WeatherFetch] *)
  futStatus : future_status            (* answer of [wait_for(0s)] *)
}.

(** The process as [WeatherUpdate] sees it: the globals, the static
    [futWeather] ([None] when [!valid()]) and the worker threads started
    so far with the arguments they were given. *)
Record Process : Type := mkProcess {
  world : World;
  futWeather : option future;
  workers : list (float * float * float)
}.

(** [std::async(std::launch::async, WeatherFetch, args)]: a new thread is
    started; its future is not ready at that moment. *)
Definition async_WeatherFetch (args : float * float * float) (p : Process)
  : future * Process :=
  let f := mkFuture args fs_timeout in
  (f, mkProcess (world p) (futWeather p) (workers p ++ [args])).

(** [WeatherUpdate]: asynchronously, fetch fresh weather information. *)
Definition WeatherUpdate (pos : positionTy) (radius_nm : float) (p : Process)
  : bool * Process :=
  (* does only make sense in a certain latitude range *)
  if (80.0 <=? lat pos)%float then (false, p)
  else
    (* a request still underway?  [valid() && wait_for(0s) != ready] *)
    let underway :=
      match futWeather p with
      | Some f => negb (future_status_eqb (futStatus f) fs_ready)
      | None => false
      end in
    if underway then (false, p)
    else
      (* start another thread with the weather request *)
      let '(f, p') :=
        async_WeatherFetch
          (to_float E (lat pos), to_float E (lon pos), radius_nm) p in
      (true, mkProcess (world p') (Some f) (workers p')).

End Code.

(** ** A concrete environment for running the model *)

Module Sample.

Definition of_Z (z : Z) : float := PrimFloat.of_uint63 (Uint63.of_Z z).

(** Nearest integer of a binary64 below [2^52] in magnitude. *)
Definition nearest_int (x : float) : float :=
  if (x <? 0)%float then ((x - 0x1p52) + 0x1p52)%float
  else ((x + 0x1p52) - 0x1p52)%float.

(** Rounding to binary32 (24-bit significand, subnormals below [2^-126],
    overflow to infinity). *)
Definition to_binary32 (x : float) : float :=
  if (PrimFloat.abs x <? 0x1p-126)%float then
    (nearest_int (x * 0x1p149) * 0x1p-149)%float
  else
    let '(m, e) := FloatOps.Z.frexp x in
    let r := nearest_int (FloatOps.Z.ldexp m 24) in
    let y := FloatOps.Z.ldexp r (e - 24) in
    if (0x1.fffffep127 <? PrimFloat.abs y)%float then
      (if (y <? 0)%float then PrimFloat.neg_infinity else PrimFloat.infinity)
    else y.

Definition is_digit (c : ascii) : bool :=
  (48 <=? nat_of_ascii c)%nat && (nat_of_ascii c <=? 57)%nat.

(** Leading decimal digits of [s] appended to [acc]; their number. *)
Fixpoint digits (s : string) (acc : Z) (n : nat) : Z * nat * string :=
  match s with
  | String c s' =>
      if is_digit c
      then digits s' (10 * acc + Z.of_nat (nat_of_ascii c - 48))%Z (S n)
      else (acc, n, s)
  | EmptyString => (acc, n, s)
  end.

(** Decimal literals [-ddd.ddd] the way [std::stof] reads them: the
    longest numeric prefix counts, no digit at all is
    [std::invalid_argument]. *)
Definition stof_decimal (s : string) : exception + float :=
  let '(neg, s1) :=
    match s with
    | String "-"%char s' => (true, s')
    | _ => (false, s)
    end in
  let '(ip, n1, rest) := digits s1 0%Z 0 in
  let '(fp, n2) :=
    match rest with
    | String "."%char r => let '(v, n, _) := digits r ip 0 in (v, n)
    | _ => (ip, 0)
    end in
  if (n1 + n2 =? 0)%nat then inl (StdException "stof")
  else
    let v := to_binary32 (of_Z fp / of_Z (10 ^ Z.of_nat n2))%float in
    inr (if neg then (- v)%float else v).

(** The classifier looks for the word curl's Schannel backend uses. *)
Definition is_revocation_error (err : string) : bool :=
  match find err "revocation" 0 with Some _ => true | None => false end.

Definition failed_transfer : Transfer :=
  mkTransfer 7%Z "Couldn't connect to server" [] 0%Z.

(** A server that answers the [k]-th transfer with the [k]-th entry of a
    script and refuses connections afterwards. *)
Definition scripted (script : list Transfer) (k : nat) (_ : Request)
  : Transfer :=
  nth k script failed_transfer.

Definition env (script : list Transfer) : Env :=
  mkEnv stof_decimal to_binary32 is_revocation_error true (scripted script).

Definition http_200 (body : string) : Transfer :=
  mkTransfer CURLE_OK "" [body] 200%Z.

Definition wx0 : Weather := mkWeather 1013.25%float NAN NAN "" "".

Definition world0 : World := mkWorld 90%Z wx0 [].

End Sample.

(** ** Reading traces and results *)

Definition urls_set (tr : list Event) : list Url :=
  flat_map (fun ev => match ev with EvSetUrl u => [u] | _ => [] end) tr.

Definition performed (tr : list Event) : list Request :=
  flat_map (fun ev => match ev with EvPerform rq => [rq] | _ => [] end) tr.

Definition processed (tr : list Event) : list string :=
  flat_map (fun ev => match ev with EvProcess b => [b] | _ => [] end) tr.

Definition published (tr : list Event) : list Weather :=
  flat_map (fun ev => match ev with EvSetWeather wx => [wx] | _ => [] end) tr.

(** The spec's outcomes of interpreting a body, plus the escape by an
    exception.  The code has no such type: the outcomes differ in the value
    [WeatherProcessResponse] returns, in what it logs and in whether it
    publishes. *)
Inductive Outcome : Type :=
| Success (wx : Weather)
| NotFound
| ProtocolError (msg : string)
| Raised (e : exception).

Definition classifies (E : Env) (body : string) (o : Outcome) : Prop :=
  forall w,
    WeatherProcessResponse E body w =
    match o with
    | Success wx => (Ok true, publish wx (extend w [EvProcess body]))
    | NotFound => (Ok false, extend w [EvProcess body])
    | ProtocolError msg =>
        (Ok false,
         extend w [EvProcess body; EvLog logERR (ERR_WEATHER_ERROR msg)])
    | Raised e => (Throw e, extend w [EvProcess body])
    end.

(** The text of the optional numeric fields as the interpreter reads them:
    a fresh scan from the start of the buffer through [<raw_text>],
    [<station_id>], [<latitude>], [<longitude>]. *)
Definition latitude_text (body : string) : string :=
  let '(_, pos) := GetXMLValue body "<raw_text>" 0 in
  let '(_, pos) := GetXMLValue body "<station_id>" pos in
  fst (GetXMLValue body "<latitude>" pos).

Definition longitude_text (body : string) : string :=
  let '(_, pos) := GetXMLValue body "<raw_text>" 0 in
  let '(_, pos) := GetXMLValue body "<station_id>" pos in
  let '(_, pos) := GetXMLValue body "<latitude>" pos in
  fst (GetXMLValue body "<longitude>" pos).

(** [std::stof] converts [val]. *)
Definition numeric (E : Env) (val : string) : Prop :=
  exists f, stof E val = inr f.

(** An optional numeric field is absent or convertible. *)
Definition optional_numeric (E : Env) (val : string) : Prop :=
  val <> "" -> numeric E val.

(** [w'] is [w] after the actions [evs]: the trace has grown by [evs] and
    the published weather is the one published last, if any. *)
Definition evolves (w w' : World) (evs : list Event) : Prop :=
  trace w' = (trace w ++ evs)%list /\
  netwTimeout w' = netwTimeout w /\
  weather w' = last (published evs) (weather w).

(** The interpreter returns [false] on [body] after the actions [evs]
    that follow its entry, leaving [dataRefs] alone. *)
Definition returns_false (E : Env) (body : string) (evs : list Event) : Prop :=
  forall w,
    WeatherProcessResponse E body w = (Ok false, extend w (EvProcess body :: evs)).


(** What the handlers of [WeatherFetch] log for an exception. *)
Definition exception_msg (e : exception) : LogMsg :=
  match e with
  | StdException what => MSG_FAILED_WITH_EXCEPTION what
  | OtherException => MSG_FAILED_WITH_UNKNOWN_EXCEPTION
  end.

(** All data one transfer hands to the write callback. *)
Definition received (t : Transfer) : string :=
  fold_left (fun buf ptr => buf ++ ptr) (chunks t) "".

(** The request the first transfer of a fetch carries. *)
Definition first_request (E : Env) (w : World) (_lat _lon _radius_nm : float)
  : Request :=
  mkRequest (weather_url E _radius_nm _lon _lat) (netwTimeout w) false.

(** The transfers of one "perform" block for [url] on a handle whose
    revocation checks are off or not ([b0]): one transfer, or two with the
    second one unchecked; [b1] is the handle's setting afterwards. *)
Definition requests_of (url : Url) (tmo : Z) (b0 : bool)
  (reqs : list Request) (b1 : bool) : Prop :=
  (reqs = [mkRequest url tmo b0] /\ b1 = b0) \/
  (reqs = [mkRequest url tmo b0; mkRequest url tmo true] /\ b1 = true).

(** In a sequence of revocation settings, no checked transfer follows an
    unchecked one. *)
Fixpoint mitigation_kept (flags : list bool) : bool :=
  match flags with
  | [] => true
  | true :: rest => forallb (fun b => b) rest
  | false :: rest => mitigation_kept rest
  end.

(** * LiveTraffic.h: utility functions *)

(** An [int] converted to [size_t], which is 64 bits wide on the platforms
    the plugin is built for. *)
Definition size_t_of_int (m : Z) : Z := (m mod 2 ^ 64)%Z.

(** [s.substr(0, count)] for a [size_t] count: the first
    [min(count, s.size())] characters. *)
Definition substr_front (s : string) (count : Z) : string :=
  substr s 0 (Z.to_nat (Z.min count (Z.of_nat (length s)))).

(** [strAtMost(s, m)]: "limits text to m characters, replacing the last
    ones with ... if too long".  [m] is an [int]; the comparison with
    [s.length()] and the count handed to [substr] are unsigned. *)
Definition strAtMost (s : string) (m : Z) : string :=
  if (Z.of_nat (length s) <=? size_t_of_int m)%Z then s
  else substr_front s (size_t_of_int (m - 3)) ++ "...".

Section PushBackUnique.

Context {T : Type} (eqb : T -> T -> bool).      (* [operator==] of [T] *)

(** [std::find(list.cbegin(), list.cend(), key)] as a position; the
    length of the list stands for [list.cend()]. *)
Fixpoint std_find (list : Datatypes.list T) (key : T) : nat :=
  match list with
  | [] => 0
  | x :: rest => if eqb x key then 0 else S (std_find rest key)
  end.

(** [push_back_unique(list, key)]: "push a new item to the end only if it
    doesn't exist yet". *)
Definition push_back_unique (list : Datatypes.list T) (key : T)
  : Datatypes.list T :=
  if (std_find list key =? List.length list)%nat then (list ++ [key])%list
  else list.

End PushBackUnique.

(** * LTImgWindow.h: screen coordinates, window modes and styles *)

Module Wnd.

(** 2D window position *)
Record WndPos : Type := mkWndPos {
  x : Z;
  y : Z
}.

(** 2D rectangle *)
Record WndRect : Type := mkWndRect {
  tl : WndPos;          (* top left *)
  br : WndPos           (* bottom right *)
}.

(** The default constructor: all zero. *)
Definition WndRect_default : WndRect :=
  mkWndRect (mkWndPos 0 0) (mkWndPos 0 0).

(** The constructor taking four ints. *)
Definition WndRect_ltrb (_l _t _r _b : Z) : WndRect :=
  mkWndRect (mkWndPos _l _t) (mkWndPos _r _b).

Definition left (r : WndRect) : Z := x (tl r).
Definition top (r : WndRect) : Z := y (tl r).
Definition right (r : WndRect) : Z := x (br r).
Definition bottom (r : WndRect) : Z := y (br r).

(** [clear()]: all to zero. *)
Definition clear (r : WndRect) : WndRect :=
  mkWndRect (mkWndPos 0 0) (mkWndPos 0 0).

(** [!i] for an [int]. *)
Definition not_int (i : Z) : bool := (i =? 0)%Z.

(** [empty()] *)
Definition empty (r : WndRect) : bool :=
  not_int (x (tl r)) && not_int (y (tl r)) &&
  not_int (x (br r)) && not_int (y (br r)).

End Wnd.

(** Mode the window is to open in / does currently operate in. *)
Inductive WndMode : Type :=
| WND_MODE_NONE
| WND_MODE_FLOAT
| WND_MODE_POPOUT
| WND_MODE_VR
| WND_MODE_FLOAT_OR_VR
| WND_MODE_FLOAT_CENTERED
| WND_MODE_FLOAT_CNT_VR
| WND_MODE_CLOSE.

(** The X-Plane SDK's enumerations the conversions below map to. *)
Inductive XPLMWindowPositioningMode : Type :=
| xplm_WindowPositionFree
| xplm_WindowCenterOnMonitor
| xplm_WindowFullScreenOnMonitor
| xplm_WindowFullScreenOnAllMonitors
| xplm_WindowPopOut
| xplm_WindowVR.

Inductive XPLMWindowDecoration : Type :=
| xplm_WindowDecorationNone
| xplm_WindowDecorationRoundRectangle
| xplm_WindowDecorationSelfDecorated
| xplm_WindowDecorationSelfDecoratedResizable.

Inductive XPLMWindowLayer : Type :=
| xplm_WindowLayerFlightOverlay
| xplm_WindowLayerFloatingWindows
| xplm_WindowLayerModal
| xplm_WindowLayerGrowlNotifications.

(** [toPosMode(_m)]: the position mode for a window mode.  The first
    argument is what [dataRefs.IsVREnabled()] answers. *)
Definition toPosMode (IsVREnabled : bool) (_m : WndMode)
  : XPLMWindowPositioningMode :=
  match _m with
  | WND_MODE_FLOAT => xplm_WindowPositionFree
  | WND_MODE_POPOUT => xplm_WindowPopOut
  | WND_MODE_VR => xplm_WindowVR
  | WND_MODE_FLOAT_OR_VR =>
      if IsVREnabled then xplm_WindowVR else xplm_WindowPositionFree
  | WND_MODE_FLOAT_CENTERED => xplm_WindowCenterOnMonitor
  | WND_MODE_FLOAT_CNT_VR =>
      if IsVREnabled then xplm_WindowVR else xplm_WindowCenterOnMonitor
  | _ => xplm_WindowPositionFree
  end.

(** Style: a solid window with all decorations, or a HUD-like window. *)
Inductive WndStyle : Type :=
| WND_STYLE_NONE
| WND_STYLE_SOLID
| WND_STYLE_HUD.

Definition WndStyle_eqb (a b : WndStyle) : bool :=
  match a, b with
  | WND_STYLE_NONE, WND_STYLE_NONE
  | WND_STYLE_SOLID, WND_STYLE_SOLID
  | WND_STYLE_HUD, WND_STYLE_HUD => true
  | _, _ => false
  end.

(** [toDeco(_s)]: window decoration based on style. *)
Definition toDeco (_s : WndStyle) : XPLMWindowDecoration :=
  if WndStyle_eqb _s WND_STYLE_HUD
  then xplm_WindowDecorationSelfDecoratedResizable
  else xplm_WindowDecorationRoundRectangle.

(** [toLayer(_s)]: window layer based on style. *)
Definition toLayer (_s : WndStyle) : XPLMWindowLayer :=
  if WndStyle_eqb _s WND_STYLE_HUD
  then xplm_WindowLayerFlightOverlay
  else xplm_WindowLayerFloatingWindows.

(** * ACInfoWnd.cpp: the aircraft information window *)

Module ACIWnd.

(** [s.find_first_not_of(chars)] *)
Fixpoint find_first_not_of (s chars : string) : option nat :=
  match s with
  | EmptyString => None
  | String c rest =>
      match find_char chars c 0 with
      | Some _ => option_map S (find_first_not_of rest chars)
      | None => Some 0
      end
  end.

(** [std::stoi] on a string of decimal digits; it is called on one to
    three digits only, so neither of its exceptions can occur. *)
Definition stoi (s : string) : Z :=
  fold_left (fun acc c => (10 * acc + (Z.of_nat (nat_of_ascii c) - 48))%Z)
    (list_ascii_of_string s) 0%Z.

(** Calls into the window base class, in the order they are made. *)
Inductive WndCall : Type :=
| SetWindowTitle (title : string)
| ReturnKeyboardFocus.

Section Members.

Context {FDKeyTy LTFlightData : Type}.

(** What the members below use of types and functions declared
    elsewhere. *)
Record Deps : Type := mkDeps {
  trim : string -> string;                   (* [trim(s)], done in place *)
  hasAc : LTFlightData -> bool;
  IsMatch : LTFlightData -> string -> bool;
  key : LTFlightData -> FDKeyTy;
  key_string : FDKeyTy -> string;            (* [std::string(acKey)] *)
  key_empty : FDKeyTy -> bool;               (* [acKey.empty()] *)
  key_clear : FDKeyTy -> FDKeyTy;            (* [acKey.clear()] *)
  ACI_WND_TITLE : string
}.

Context (D : Deps).

(** [mapFd]: the flight data, entry by entry in the order of iteration. *)
Definition mapLTFlightDataTy : Type := list (FDKeyTy * LTFlightData).

(** The members of an [ACIWnd] the functions below work on, and the calls
    it has made into its base class. *)
Record ACIWnd : Type := mkACIWnd {
  bAuto : bool;
  keyEntry : string;
  acKey : FDKeyTy;
  calls : list WndCall
}.

(** [GetWndTitle]: the text to be used as window title. *)
Definition GetWndTitle (this : ACIWnd) : string :=
  (if key_empty D (acKey this) then ACI_WND_TITLE D
   else key_string D (acKey this))
  ++ (if bAuto this then " (AUTO)" else "").

(** [SetAcKey]: set the a/c key - no validation. *)
Definition SetAcKey (_key : FDKeyTy) (this : ACIWnd) : ACIWnd :=
  (* [keyEntry = (acKey = _key)] *)
  let this := mkACIWnd (bAuto this) (key_string D _key) _key (calls this) in
  let this := mkACIWnd (bAuto this) (keyEntry this) (acKey this)
                (calls this ++ [SetWindowTitle (GetWndTitle this)]) in
  mkACIWnd (bAuto this) (keyEntry this) (acKey this)
    (calls this ++ [ReturnKeyboardFocus]).

(** [ClearAcKey]: clear the a/c key, ie. display no data. *)
Definition ClearAcKey (this : ACIWnd) : ACIWnd :=
  let this := mkACIWnd (bAuto this) "" (key_clear D (acKey this))
                (calls this) in
  mkACIWnd (bAuto this) (keyEntry this) (acKey this)
    (calls this ++ [SetWindowTitle (GetWndTitle this)]).

(** The loop "find the i-th aircraft by looping over all flight data and
    count those objects, which have an a/c": the entry at which it breaks,
    or [None] for running into [mapFd.cend()]. *)
Fixpoint ith_with_ac (i : Z) (fd : mapLTFlightDataTy)
  : option (FDKeyTy * LTFlightData) :=
  match fd with
  | [] => None
  | mfd :: rest =>
      if hasAc D (snd mfd) then
        if (i - 1 =? 0)%Z then Some mfd else ith_with_ac (i - 1) rest
      else ith_with_ac i rest
  end.

(** [std::find_if] over the map; [None] for [mapFd.cend()]. *)
Fixpoint find_if (pred : FDKeyTy * LTFlightData -> bool)
  (fd : mapLTFlightDataTy) : option (FDKeyTy * LTFlightData) :=
  match fd with
  | [] => None
  | mfd :: rest => if pred mfd then Some mfd else find_if pred rest
  end.

(** [SearchAndSetFlightData]: taking the user's temporary input
    [keyEntry], searches for a valid a/c, sets [acKey] on success. *)
Definition SearchAndSetFlightData (mapFd : mapLTFlightDataTy) (this : ACIWnd)
  : bool * ACIWnd :=
  let this := mkACIWnd (bAuto this) (trim D (keyEntry this)) (acKey this)
                (calls this) in
  let fdIter :=
    if negb (empty (keyEntry this)) then
      (* is it a small integer number, i.e. used as index? *)
      if (length (keyEntry this) <=? 3)%nat &&
         match find_first_not_of (keyEntry this) "0123456789" with
         | None => true
         | Some _ => false
         end
      then
        let i := stoi (keyEntry this) in
        if (0 <? i)%Z then ith_with_ac i mapFd else None
      else
        (* search the map of flight data by text key *)
        find_if (fun mfd => IsMatch D (snd mfd) (keyEntry this)) mapFd
    else None in
  match fdIter with
  | Some mfd =>
      (* found: save the a/c key *)
      (true, SetAcKey (key D (snd mfd)) this)
  | None =>
      (* not found *)
      (false, mkACIWnd (bAuto this) (keyEntry this)
                (key_clear D (acKey this)) (calls this))
  end.

End Members.

Section Statics.

Context {ptr : Type} (ptr_eqb : ptr -> ptr -> bool).     (* [ACIWnd*] *)

(** What the static functions do to the windows. *)
Inductive StaticCall : Type :=
| SetVisible (pWnd : ptr) (b : bool)
| Delete (pWnd : ptr).

(** The static members, and the calls made on windows. *)
Record Statics : Type := mkStatics {
  bAreShown : bool;
  listACIWnd : list ptr;
  wndCalls : list StaticCall
}.

(** [listACIWnd.remove(this)]: every element equal to [this] goes. *)
Definition list_remove (this : ptr) (l : list ptr) : list ptr :=
  filter (fun q => negb (ptr_eqb q this)) l.

(** [delete pWnd]: the destructor removes the window from the list. *)
Definition delete_wnd (pWnd : ptr) (st : Statics) : Statics :=
  mkStatics (bAreShown st) (list_remove pWnd (listACIWnd st))
    (wndCalls st ++ [Delete pWnd]).

(** [ToggleHideShowAll]: show/hide all windows; returns the new state. *)
Definition ToggleHideShowAll (st : Statics) : bool * Statics :=
  let b := negb (bAreShown st) in
  (b, mkStatics b (listACIWnd st)
        (wndCalls st ++ map (fun pWnd => SetVisible pWnd b) (listACIWnd st))).

(** "keep closing the first window until map empty" *)
Fixpoint CloseAll_loop (fuel : nat) (st : Statics) : option Statics :=
  match listACIWnd st with
  | [] => Some st
  | pWnd :: _ =>
      match fuel with
      | 0 => None
      | S fuel' => CloseAll_loop fuel' (delete_wnd pWnd st)
      end
  end.

(** [CloseAll]: close all windows, but not in VR camera view.  The
    arguments are what [dataRefs.IsVREnabled()] and
    [LTAircraft::IsCameraViewOn()] answer. *)
Definition CloseAll (fuel : nat) (IsVREnabled IsCameraViewOn : bool)
  (st : Statics) : option Statics :=
  if IsVREnabled && IsCameraViewOn then Some st
  else CloseAll_loop fuel st.

(** What a window was last told by [SetVisible], if anything. *)
Definition visible_of (calls : list StaticCall) (pWnd : ptr) : option bool :=
  fold_left
    (fun v call =>
       match call with
       | SetVisible q b => if ptr_eqb q pWnd then Some b else v
       | Delete _ => v
       end)
    calls None.

End Statics.

End ACIWnd.

(** A concrete setting for running the window code: keys are strings,
    a flight is its key and whether it has an aircraft, a flight matches a
    text that is its key, and [trim] strips blanks at both ends. *)
Module SampleWnd.

Fixpoint ltrim (s : string) : string :=
  match s with
  | String " "%char rest => ltrim rest
  | _ => s
  end.

Fixpoint rtrim (s : string) : string :=
  match s with
  | EmptyString => EmptyString
  | String c rest =>
      match rtrim rest with
      | EmptyString =>
          if Ascii.eqb c " "%char then EmptyString else String c EmptyString
      | rest' => String c rest'
      end
  end.

Definition deps : @ACIWnd.Deps string (string * bool) :=
  ACIWnd.mkDeps
    (fun s => rtrim (ltrim s))
    (fun fd => snd fd)
    (fun fd s => String.eqb (fst fd) s)
    (fun fd => fst fd)
    (fun k => k)
    empty
    (fun _ => EmptyString)
    "A/C Info".

Definition flight (k : string) (ac : bool) : string * (string * bool) :=
  (k, (k, ac)).

Definition mapFd : list (string * (string * bool)) :=
  [flight "3C4A21" true; flight "4067E2" false; flight "A0B1C2" true;
   flight "1234" true].

Definition wnd (entry : string) : @ACIWnd.ACIWnd string :=
  ACIWnd.mkACIWnd false entry EmptyString [].

End SampleWnd.

(** ** Facts about std::string *)

Module StdStringFacts.

Lemma empty_true (s : string) : empty s = true <-> s = "".
Proof. destruct s; simpl; split; congruence. Qed.

Lemma empty_false (s : string) : empty s = false <-> s <> "".
Proof. destruct s; simpl; split; congruence. Qed.

Lemma append_nil_r (s : string) : s ++ "" = s.
Proof. induction s as [|c s IH]; simpl; congruence. Qed.

Lemma append_assoc (a b c : string) : (a ++ b) ++ c = a ++ b ++ c.
Proof. induction a as [|x a IH]; simpl; congruence. Qed.

Lemma length_append (a b : string) : length (a ++ b) = length a + length b.
Proof. induction a as [|x a IH]; simpl; auto. Qed.

Lemma prefix_spec (pat s : string) :
  prefix pat s = true <-> exists v, s = pat ++ v.
Proof.
  revert s; induction pat as [|a pat IH]; intros s; simpl.
  - split; [intros _; exists s; reflexivity | destruct s; reflexivity].
  - destruct s as [|b s]; simpl.
    + split; [discriminate | intros [v Hv]; discriminate].
    + destruct (ascii_dec a b) as [->|Hab].
      * rewrite IH. split; intros [v Hv]; exists v; congruence.
      * split; [discriminate | intros [v Hv]; congruence].
Qed.

Lemma occurs_at_0 (s pat : string) :
  occurs_at s pat 0 <-> prefix pat s = true.
Proof.
  rewrite prefix_spec. split.
  - intros (u & v & -> & Hu). destruct u; [|discriminate]. now exists v.
  - intros [v ->]. now exists "", v.
Qed.

Lemma occurs_at_S (c : ascii) (s pat : string) (p : nat) :
  occurs_at (String c s) pat (S p) <-> occurs_at s pat p.
Proof.
  split.
  - intros (u & v & H & Hu). destruct u as [|x u]; [discriminate|].
    simpl in *. injection H as _ ->. exists u, v. split; congruence.
  - intros (u & v & -> & Hu). exists (String c u), v. simpl. split; congruence.
Qed.

Lemma occurs_at_nil (pat : string) (p : nat) :
  occurs_at "" pat p <-> pat = "" /\ p = 0.
Proof.
  split.
  - intros (u & v & H & Hu). destruct u; [|discriminate].
    destruct pat; [|discriminate]. simpl in Hu. auto.
  - intros [-> ->]. now exists "", "".
Qed.

Lemma index_cons_0 (pat : string) (b : ascii) (s : string) :
  index 0 pat (String b s) =
  if prefix pat (String b s) then Some 0 else option_map S (index 0 pat s).
Proof. reflexivity. Qed.

Lemma index_cons_S (n : nat) (pat : string) (b : ascii) (s : string) :
  index (S n) pat (String b s) = option_map S (index n pat s).
Proof. reflexivity. Qed.

(** [index] is the least occurrence at or after the start position. *)
Lemma index_Some (pat s : string) :
  forall n m, index n pat s = Some m ->
    n <= m /\ occurs_at s pat m /\
    forall q, n <= q -> q < m -> ~ occurs_at s pat q.
Proof.
  induction s as [|b s IH]; intros n m H.
  - destruct n; simpl in H; [|discriminate].
    destruct pat; [|discriminate]. injection H as <-.
    split; [lia | split; [apply occurs_at_nil; auto | intros; lia]].
  - destruct n as [|n];
      [rewrite index_cons_0 in H | rewrite index_cons_S in H].
    + destruct (prefix pat (String b s)) eqn:Hp.
      * injection H as <-.
        split; [lia | split; [apply occurs_at_0; auto | intros; lia]].
      * destruct (index 0 pat s) as [k|] eqn:Hk; [|discriminate].
        simpl in H. injection H as <-. destruct (IH _ _ Hk) as (_ & Ho & Hmin).
        split; [lia | split; [apply occurs_at_S; auto |]].
        intros [|q] _ Hq.
        -- rewrite occurs_at_0. congruence.
        -- rewrite occurs_at_S. apply Hmin; lia.
    + destruct (index n pat s) as [k|] eqn:Hk; [|discriminate].
      simpl in H. injection H as <-. destruct (IH _ _ Hk) as (Hle & Ho & Hmin).
      split; [lia | split; [apply occurs_at_S; auto |]].
      intros [|q] Hq1 Hq2; [lia|].
      rewrite occurs_at_S. apply Hmin; lia.
Qed.

Lemma index_None (pat s : string) :
  forall n, index n pat s = None ->
    forall q, n <= q -> ~ occurs_at s pat q.
Proof.
  induction s as [|b s IH]; intros n H q Hq Ho.
  - apply occurs_at_nil in Ho as [-> ->].
    assert (n = 0) by lia; subst. discriminate.
  - destruct n as [|n];
      [rewrite index_cons_0 in H | rewrite index_cons_S in H].
    + destruct (prefix pat (String b s)) eqn:Hp; [discriminate|].
      destruct (index 0 pat s) eqn:Hk; [discriminate|].
      destruct q as [|q].
      * apply occurs_at_0 in Ho. congruence.
      * apply occurs_at_S in Ho. apply (IH 0 Hk q); [lia | assumption].
    + destruct (index n pat s) eqn:Hk; [discriminate|].
      destruct q as [|q]; [lia|].
      apply occurs_at_S in Ho. apply (IH n Hk q); [lia | assumption].
Qed.

(** [find] returns [Some p] exactly for the least occurrence from [pos]. *)
Lemma find_Some_iff (s pat : string) (pos p : nat) :
  find s pat pos = Some p <->
  pos <= p /\ occurs_at s pat p /\
  forall q, pos <= q -> q < p -> ~ occurs_at s pat q.
Proof.
  unfold find. split; [apply index_Some|].
  intros (Hle & Ho & Hmin).
  destruct (index pos pat s) as [m|] eqn:Hm.
  - destruct (index_Some _ _ _ _ Hm) as (Hle' & Ho' & Hmin').
    f_equal. destruct (Nat.lt_trichotomy m p) as [Hlt|[->|Hgt]]; auto.
    + exfalso. apply (Hmin m); auto.
    + exfalso. apply (Hmin' p); auto.
  - exfalso. apply (index_None _ _ _ Hm p Hle Ho).
Qed.

(** [find] returns [npos] exactly when there is no occurrence from [pos]. *)
Lemma find_None_iff (s pat : string) (pos : nat) :
  find s pat pos = None <-> forall q, pos <= q -> ~ occurs_at s pat q.
Proof.
  unfold find. split; [apply index_None|].
  intros H. destruct (index pos pat s) as [m|] eqn:Hm; auto.
  destruct (index_Some _ _ _ _ Hm) as (Hle & Ho & _).
  exfalso. apply (H m Hle Ho).
Qed.

Lemma occurs_at_char (s : string) (c : ascii) :
  forall q, occurs_at s (String c "") q <-> get q s = Some c.
Proof.
  induction s as [|b s IH]; intros q.
  - rewrite occurs_at_nil. simpl. split; [intros [? _] | ]; discriminate.
  - destruct q as [|q].
    + rewrite occurs_at_0. simpl.
      destruct (ascii_dec c b) as [->|Hn]; split; intros H; try congruence.
      destruct s; reflexivity.
    + rewrite occurs_at_S. simpl. apply IH.
Qed.

Lemma get_app_r (a b : string) (i : nat) :
  get (length a + i) (a ++ b) = get i b.
Proof. induction a as [|x a IH]; simpl; auto. Qed.

Lemma get_app_l (a b : string) :
  forall i, i < length a -> get i (a ++ b) = get i a.
Proof.
  induction a as [|x a IH]; simpl; intros i Hi; [lia|].
  destruct i; auto. apply IH. lia.
Qed.

Lemma substring_0_app (x v : string) : substring 0 (length x) (x ++ v) = x.
Proof.
  induction x as [|c x IH]; simpl.
  - destruct v; reflexivity.
  - now rewrite IH.
Qed.

Lemma substring_app_mid (u x v : string) :
  substring (length u) (length x) (u ++ x ++ v) = x.
Proof. induction u as [|c u IH]; simpl; auto using substring_0_app. Qed.

Lemma substring_len_0 (s : string) : forall p, substring p 0 s = "".
Proof. induction s as [|c s IH]; intros [|p]; simpl; auto. Qed.

Lemma find_char_None_get (x : string) (c : ascii) :
  find_char x c 0 = None -> forall i, get i x <> Some c.
Proof.
  intros H i Hi. apply occurs_at_char in Hi.
  apply (proj1 (find_None_iff x (String c "") 0) H i); [lia | assumption].
Qed.

(** Scanning for [c] from the start of a stretch [x] free of [c] stops
    right behind it. *)
Lemma find_char_skip (u x v : string) (c : ascii) :
  find_char x c 0 = None ->
  find_char (u ++ x ++ String c v) c (length u) = Some (length u + length x).
Proof.
  intros Hx. apply find_Some_iff. split; [lia|]. split.
  - exists (u ++ x), v. rewrite append_assoc, length_append. auto.
  - intros q Hq1 Hq2 Ho. apply occurs_at_char in Ho.
    replace q with (length u + (q - length u)) in Ho by lia.
    rewrite get_app_r, get_app_l in Ho by lia.
    exact (find_char_None_get _ _ Hx _ Ho).
Qed.

(** A character found right at the start position. *)
Lemma find_char_here (s : string) (c : ascii) (p : nat) :
  get p s = Some c -> find_char s c p = Some p.
Proof.
  intros H. apply find_Some_iff. split; [lia|]. split.
  - now apply occurs_at_char.
  - intros; lia.
Qed.

End StdStringFacts.
Import StdStringFacts.

(** ** Facts about the scanner *)

Section ScannerFacts.

Lemma GetXMLValue_not_found (r tag : string) (pos : nat) :
  find r tag pos = None -> GetXMLValue r tag pos = ("", pos).
Proof. unfold GetXMLValue. now intros ->. Qed.

Lemma GetXMLValue_found (r tag : string) (pos p q : nat) :
  find r tag pos = Some p ->
  find_char r "<"%char (p + length tag) = Some q ->
  GetXMLValue r tag pos =
  (substr r (p + length tag) (q - (p + length tag)), q).
Proof. unfold GetXMLValue. now intros -> ->. Qed.

Lemma GetXMLValue_unterminated (r tag : string) (pos p : nat) :
  find r tag pos = Some p ->
  find_char r "<"%char (p + length tag) = None ->
  GetXMLValue r tag pos = ("", 0).
Proof. unfold GetXMLValue. now intros -> ->. Qed.

(** The value is the text between the tag and the next ['<'], where the
    cursor comes to rest. *)
Lemma GetXMLValue_element (pre tag x rest : string) (pos : nat) :
  find (pre ++ tag ++ x ++ String "<"%char rest) tag pos = Some (length pre) ->
  find_char x "<"%char 0 = None ->
  GetXMLValue (pre ++ tag ++ x ++ String "<"%char rest) tag pos =
  (x, length pre + length tag + length x).
Proof.
  intros Hf Hx.
  assert (Hq : find_char (pre ++ tag ++ x ++ String "<"%char rest) "<"%char
                 (length pre + length tag)
               = Some (length pre + length tag + length x)).
  { rewrite <- (append_assoc pre tag), <- length_append.
    now apply find_char_skip. }
  rewrite (GetXMLValue_found _ _ _ _ _ Hf Hq). f_equal.
  unfold substr.
  replace (length pre + length tag + length x - (length pre + length tag))
    with (length x) by lia.
  rewrite <- (append_assoc pre tag), <- length_append.
  apply substring_app_mid.
Qed.

(** A tag directly followed by ['<'] has an empty value; the cursor stops
    right behind the tag. *)
Lemma GetXMLValue_empty_element (r tag : string) (pos p : nat) :
  find r tag pos = Some p ->
  get (p + length tag) r = Some "<"%char ->
  GetXMLValue r tag pos = ("", p + length tag).
Proof.
  intros Hf Hg.
  rewrite (GetXMLValue_found _ _ _ _ _ Hf (find_char_here _ _ _ Hg)).
  unfold substr. now rewrite Nat.sub_diag, substring_len_0.
Qed.

End ScannerFacts.

(** The scanner on the buffer [<tag>VALUE</tag>]: the value, and the cursor
    on the ['<'] of the closing tag. *)
Example GetXMLValue_round_trip :
  GetXMLValue "<tag>VALUE</tag>" "<tag>" 0 = ("VALUE", 10) /\
  get 10 "<tag>VALUE</tag>" = Some "<"%char.
Proof. split; reflexivity. Qed.

(** A tag with no ['<'] behind it: empty value, cursor back at 0. *)
Example GetXMLValue_open_end :
  GetXMLValue "abc<tag>VALUE" "<tag>" 2 = ("", 0).
Proof. reflexivity. Qed.

(** C6, as the code has it -- TagExtractor, absent tag: for every buffer,
    tag and cursor such that the tag does not occur in the buffer at or
    after the cursor, [GetXMLValue] returns the empty string and leaves the
    cursor where it was. *)
Theorem GetXMLValue_absent_keeps_cursor (r tag : string) (pos : nat) :
  (forall q, pos <= q -> ~ occurs_at r tag q) ->
  GetXMLValue r tag pos = ("", pos).
Proof.
  intros H. apply GetXMLValue_not_found. now apply find_None_iff.
Qed.

Lemma GetXMLValue_absent_keeps_cursor_witness :
  (forall q, 3 <= q -> ~ occurs_at "abc<x>1<" "<y>" q) /\
  GetXMLValue "abc<x>1<" "<y>" 3 = ("", 3).
Proof.
  assert (H : forall q, 3 <= q -> ~ occurs_at "abc<x>1<" "<y>" q).
  { apply find_None_iff. reflexivity. }
  split; [exact H | exact (GetXMLValue_absent_keeps_cursor _ _ _ H)].
Defined.

(** C6, as stated, fails: in the buffer [abc<x>1<] the tag [<y>] does not
    occur at or after cursor 3, and the cursor is still 3 on return, not 0. *)
Lemma GetXMLValue_absent_no_reset :
  (forall q, 3 <= q -> ~ occurs_at "abc<x>1<" "<y>" q) /\
  fst (GetXMLValue "abc<x>1<" "<y>" 3) = "" /\
  snd (GetXMLValue "abc<x>1<" "<y>" 3) = 3 /\
  snd (GetXMLValue "abc<x>1<" "<y>" 3) <> 0.
Proof.
  split; [apply find_None_iff; reflexivity|].
  repeat split; try reflexivity. discriminate.
Qed.

(** ** Facts about the interpreter *)

Lemma extend_extend (w : World) (a b : list Event) :
  extend (extend w a) b = extend w (a ++ b)%list.
Proof. unfold extend; simpl. now rewrite <- app_assoc. Qed.

Lemma extend_nil (w : World) : extend w [] = w.
Proof. destruct w; unfold extend; simpl. now rewrite app_nil_r. Qed.

Section InterpreterFacts.

Context (E : Env).

Lemma WeatherProcessResponse_unfold (body : string) (w : World) :
  WeatherProcessResponse E body w =
  let '(val, pos) := GetXMLValue body "<error>" 0 in
  if empty val
  then WeatherProcessResponse_pressure E body pos (extend w [EvProcess body])
  else (Ok false,
        extend w [EvProcess body; EvLog logERR (ERR_WEATHER_ERROR val)]).
Proof.
  unfold WeatherProcessResponse, bind, emit, LOG_MSG, ret.
  destruct (GetXMLValue body "<error>" 0) as [val pos].
  destruct (empty val); simpl; [reflexivity|].
  unfold emit. now rewrite extend_extend.
Qed.

(** What the pressure part can do to the world it is entered with. *)
Lemma pressure_cases (body : string) (pos : nat) (w : World) :
  (exists wx, WeatherProcessResponse_pressure E body pos w
              = (Ok true, publish wx w)) \/
  WeatherProcessResponse_pressure E body pos w = (Ok false, w) \/
  (exists e, WeatherProcessResponse_pressure E body pos w = (Throw e, w)).
Proof.
  unfold WeatherProcessResponse_pressure.
  destruct (GetXMLValue body "<altim_in_hg>" pos) as [val pos1].
  destruct (empty val); simpl; [right; left; reflexivity|].
  unfold bind, call. destruct (stof E val) as [e|f]; simpl.
  { right; right; exists e; reflexivity. }
  destruct (GetXMLValue body "<raw_text>" 0) as [metar p1].
  destruct (GetXMLValue body "<station_id>" p1) as [station p2].
  destruct (GetXMLValue body "<latitude>" p2) as [latv p3].
  destruct (GetXMLValue body "<longitude>" p3) as [lonv p4].
  destruct (empty latv); simpl;
    [|destruct (stof E latv) as [e|la]; simpl;
      [right; right; exists e; reflexivity|]];
    (destruct (empty lonv); simpl;
     [|destruct (stof E lonv) as [e|lo]; simpl;
       [right; right; exists e; reflexivity|]]);
    left; eexists; reflexivity.
Qed.

(** A body with a pressure value and convertible numbers is published. *)
Lemma pressure_success (body : string) (pos q : nat) (v : string)
  (f : float) :
  GetXMLValue body "<altim_in_hg>" pos = (v, q) ->
  v <> "" ->
  stof E v = inr f ->
  optional_numeric E (latitude_text body) ->
  optional_numeric E (longitude_text body) ->
  exists wx,
    hPa wx = to_float E (f * to_float E HPA_per_INCH)%float /\
    forall w,
      WeatherProcessResponse_pressure E body pos w = (Ok true, publish wx w).
Proof.
  intros Hv Hne Hf Hlat Hlon.
  unfold WeatherProcessResponse_pressure, optional_numeric, numeric,
    latitude_text, longitude_text in *.
  rewrite Hv. apply empty_false in Hne. rewrite Hne. simpl.
  unfold bind, call. rewrite Hf. simpl.
  destruct (GetXMLValue body "<raw_text>" 0) as [metar p1].
  destruct (GetXMLValue body "<station_id>" p1) as [station p2].
  destruct (GetXMLValue body "<latitude>" p2) as [latv p3].
  destruct (GetXMLValue body "<longitude>" p3) as [lonv p4].
  simpl in Hlat, Hlon.
  destruct (empty latv) eqn:Hel; simpl;
    [|apply empty_false in Hel; destruct (Hlat Hel) as [la ->]; simpl];
    (destruct (empty lonv) eqn:Helo; simpl;
     [|apply empty_false in Helo; destruct (Hlon Helo) as [lo ->]; simpl]);
    eexists; (split; [|intros w; reflexivity]); reflexivity.
Qed.

Lemma pressure_not_found (body : string) (pos : nat) (w : World) :
  fst (GetXMLValue body "<altim_in_hg>" pos) = "" ->
  WeatherProcessResponse_pressure E body pos w = (Ok false, w).
Proof.
  unfold WeatherProcessResponse_pressure.
  destruct (GetXMLValue body "<altim_in_hg>" pos) as [val pos1]; simpl.
  now intros ->.
Qed.

Lemma pressure_raises (body : string) (pos : nat) (e : exception)
  (w : World) :
  fst (GetXMLValue body "<altim_in_hg>" pos) <> "" ->
  stof E (fst (GetXMLValue body "<altim_in_hg>" pos)) = inl e ->
  WeatherProcessResponse_pressure E body pos w = (Throw e, w).
Proof.
  unfold WeatherProcessResponse_pressure.
  destruct (GetXMLValue body "<altim_in_hg>" pos) as [val pos1]; simpl.
  intros Hne He. apply empty_false in Hne. rewrite Hne. simpl.
  unfold bind, call. now rewrite He.
Qed.

Lemma classifies_ProtocolError (body : string) :
  fst (GetXMLValue body "<error>" 0) <> "" ->
  classifies E body (ProtocolError (fst (GetXMLValue body "<error>" 0))).
Proof.
  intros Hne w. rewrite WeatherProcessResponse_unfold.
  destruct (GetXMLValue body "<error>" 0) as [val pos]; simpl in *.
  apply empty_false in Hne. now rewrite Hne.
Qed.

Lemma classifies_NotFound (body : string) :
  fst (GetXMLValue body "<error>" 0) = "" ->
  fst (GetXMLValue body "<altim_in_hg>"
         (snd (GetXMLValue body "<error>" 0))) = "" ->
  classifies E body NotFound.
Proof.
  intros He Ha w. rewrite WeatherProcessResponse_unfold.
  destruct (GetXMLValue body "<error>" 0) as [val pos]; simpl in *.
  subst val. simpl. now apply pressure_not_found.
Qed.

Lemma classifies_Raised (body : string) (e : exception) :
  fst (GetXMLValue body "<error>" 0) = "" ->
  fst (GetXMLValue body "<altim_in_hg>"
         (snd (GetXMLValue body "<error>" 0))) <> "" ->
  stof E (fst (GetXMLValue body "<altim_in_hg>"
                 (snd (GetXMLValue body "<error>" 0)))) = inl e ->
  classifies E body (Raised e).
Proof.
  intros He Hne Hs w. rewrite WeatherProcessResponse_unfold.
  destruct (GetXMLValue body "<error>" 0) as [val pos]; simpl in *.
  subst val. simpl. now apply pressure_raises.
Qed.

(** What the interpreter can do to the world: publish once and return
    [true], return [false] leaving [dataRefs] alone, or throw leaving it
    alone. *)
Lemma WeatherProcessResponse_cases (body : string) (w : World) :
  (exists wx, WeatherProcessResponse E body w
              = (Ok true, publish wx (extend w [EvProcess body]))) \/
  (exists evs, WeatherProcessResponse E body w
               = (Ok false, extend w (EvProcess body :: evs)) /\
               published evs = [] /\ urls_set evs = [] /\
               performed evs = [] /\ processed evs = []) \/
  (exists e, WeatherProcessResponse E body w
             = (Throw e, extend w [EvProcess body])).
Proof.
  rewrite WeatherProcessResponse_unfold.
  destruct (GetXMLValue body "<error>" 0) as [val pos].
  destruct (empty val).
  - destruct (pressure_cases body pos (extend w [EvProcess body]))
      as [[wx H]|[H|[e H]]]; rewrite H.
    + left; now exists wx.
    + right; left. exists []. repeat split; reflexivity.
    + right; right. now exists e.
  - right; left. eexists. repeat split; reflexivity.
Qed.

End InterpreterFacts.

(** A body holding nothing but a pressure value is published with the
    pressure in hPa and the other fields empty or NaN. *)
Example pressure_only_body :
  WeatherProcessResponse (Sample.env [])
    "<altim_in_hg>29.899607</altim_in_hg>" Sample.world0
  = (Ok true,
     publish (mkWeather 1012.5172729492188%float NAN NAN "" "")
       (extend Sample.world0
          [EvProcess "<altim_in_hg>29.899607</altim_in_hg>"])).
Proof. vm_compute. reflexivity. Qed.

(** A well-formed answer without results: nothing found. *)
Example empty_result_body :
  classifies (Sample.env [])
    "<response><errors/><warnings/><data/></response>" NotFound.
Proof. apply classifies_NotFound; reflexivity. Qed.

(** C5, as the code has it -- error precedence: for every response body
    whose first [<error>] tag is followed by a non-empty text [X] free of
    ['<'] and then by [</error>], whatever else the body holds (a valid
    [<altim_in_hg>] value included), [WeatherProcessResponse] logs the error
    [X] and returns [false], which is the outcome [ProtocolError X]; nothing
    is published. *)
Theorem error_precedence_first_tag (E : Env) (pre X post : string) (w : World) :
  find (pre ++ "<error>" ++ X ++ "</error>" ++ post) "<error>" 0
    = Some (length pre) ->
  X <> "" ->
  find_char X "<"%char 0 = None ->
  classifies E (pre ++ "<error>" ++ X ++ "</error>" ++ post) (ProtocolError X)
  /\ fst (WeatherProcessResponse E
            (pre ++ "<error>" ++ X ++ "</error>" ++ post) w) = Ok false
  /\ weather (snd (WeatherProcessResponse E
                     (pre ++ "<error>" ++ X ++ "</error>" ++ post) w))
     = weather w
  /\ published (trace (snd (WeatherProcessResponse E
                     (pre ++ "<error>" ++ X ++ "</error>" ++ post) w)))
     = published (trace w).
Proof.
  intros Hfirst Hne Hx.
  set (body := pre ++ "<error>" ++ X ++ "</error>" ++ post) in *.
  assert (Hval : GetXMLValue body "<error>" 0 = (X, length pre + 7 + length X)).
  { exact (GetXMLValue_element pre "<error>" X ("/error>" ++ post) 0 Hfirst Hx). }
  assert (Hc : classifies E body (ProtocolError X)).
  { pose proof (classifies_ProtocolError E body) as H.
    rewrite Hval in H. simpl in H. auto. }
  split; [exact Hc|]. rewrite (Hc w). simpl.
  repeat split. unfold published. rewrite flat_map_app. simpl.
  apply app_nil_r.
Qed.

Lemma error_precedence_first_tag_witness :
  fst (WeatherProcessResponse (Sample.env [])
         ("<errors>" ++ "<error>" ++ "Query must be constrained by time"
          ++ "</error>" ++ "</errors><altim_in_hg>29.92</altim_in_hg>")
         Sample.world0) = Ok false.
Proof.
  apply (error_precedence_first_tag (Sample.env []) "<errors>"
           "Query must be constrained by time"
           "</errors><altim_in_hg>29.92</altim_in_hg>" Sample.world0).
  - reflexivity.
  - discriminate.
  - reflexivity.
Defined.

(** C5, as stated, fails: the first body contains [<error>bad</error>] and
    a valid pressure value, but its first [<error>] tag is empty; the scan
    stops there, the body is interpreted as weather and published.  In the
    second body the error text holds a ['<']: the value ends there, and the
    message logged is not the text between the tags. *)
Lemma error_precedence_later_tag_ignored :
  let body := "<error></error><error>bad</error><altim_in_hg>29.92</altim_in_hg>" in
  let body' := "<error>a<b</error><altim_in_hg>29.92</altim_in_hg>" in
  body = "<error></error>" ++ "<error>" ++ "bad" ++ "</error>"
         ++ "<altim_in_hg>29.92</altim_in_hg>" /\
  (exists f, stof (Sample.env []) "29.92" = inr f) /\
  fst (WeatherProcessResponse (Sample.env []) body Sample.world0) = Ok true /\
  ~ classifies (Sample.env []) body (ProtocolError "bad") /\
  List.length (published (trace (snd
     (WeatherProcessResponse (Sample.env []) body Sample.world0)))) = 1 /\
  body' = "<error>" ++ "a<b" ++ "</error>" ++ "<altim_in_hg>29.92</altim_in_hg>" /\
  classifies (Sample.env []) body' (ProtocolError "a") /\
  ~ classifies (Sample.env []) body' (ProtocolError "a<b").
Proof.
  cbv zeta. split; [reflexivity|]. split; [eexists; vm_compute; reflexivity|].
  split; [vm_compute; reflexivity|]. split.
  { intros H. specialize (H Sample.world0). vm_compute in H. discriminate. }
  split; [vm_compute; reflexivity|]. split; [reflexivity|]. split.
  - exact (classifies_ProtocolError (Sample.env [])
             "<error>a<b</error><altim_in_hg>29.92</altim_in_hg>"
             ltac:(discriminate)).
  - intros H. specialize (H Sample.world0). vm_compute in H. discriminate.
Qed.

(** C9, as the code has it -- an empty error tag is not an error: for
    every response body in which the first occurrence of [<error>] is
    immediately followed by ['<'], [WeatherProcessResponse] does not
    classify the body as a protocol error; it goes on to the pressure
    extraction with the cursor just behind the error tag; and if the first
    [<altim_in_hg>] at or after that position has a non-empty value that
    [std::stof] converts, and the latitude and longitude fields are empty or
    convertible as well, the outcome is Success. *)
Theorem empty_error_tag_is_no_error (E : Env) (body : string) (p : nat) :
  find body "<error>" 0 = Some p ->
  get (p + length "<error>") body = Some "<"%char ->
  GetXMLValue body "<error>" 0 = ("", p + length "<error>") /\
  (forall msg, ~ classifies E body (ProtocolError msg)) /\
  (forall w,
     WeatherProcessResponse E body w =
     WeatherProcessResponse_pressure E body (p + length "<error>")
       (extend w [EvProcess body])) /\
  (forall v q f,
     GetXMLValue body "<altim_in_hg>" (p + length "<error>") = (v, q) ->
     v <> "" ->
     stof E v = inr f ->
     optional_numeric E (latitude_text body) ->
     optional_numeric E (longitude_text body) ->
     exists wx,
       classifies E body (Success wx) /\
       hPa wx = to_float E (f * to_float E HPA_per_INCH)%float).
Proof.
  intros Hf Hg.
  pose proof (GetXMLValue_empty_element _ _ _ _ Hf Hg) as Hval.
  assert (Hgo : forall w,
     WeatherProcessResponse E body w =
     WeatherProcessResponse_pressure E body (p + length "<error>")
       (extend w [EvProcess body])).
  { intros w. rewrite WeatherProcessResponse_unfold, Hval. reflexivity. }
  split; [exact Hval|]. split; [|split; [exact Hgo|]].
  - intros msg Hc.
    pose (w := mkWorld 0%Z (mkWeather NAN NAN NAN "" "") []).
    specialize (Hc w). rewrite Hgo in Hc.
    destruct (pressure_cases E body (p + length "<error>")
                (extend w [EvProcess body])) as [[wx H]|[H|[e H]]];
      rewrite H in Hc; discriminate.
  - intros v q f Hv Hne Hs Hlat Hlon.
    destruct (pressure_success E body _ q v f Hv Hne Hs Hlat Hlon)
      as (wx & Hh & Hw).
    exists wx. split; [|exact Hh].
    intros w. rewrite Hgo. apply Hw.
Qed.

Lemma empty_error_tag_is_no_error_witness :
  exists wx,
    classifies (Sample.env [])
      "<errors><error></error></errors><altim_in_hg>29.92</altim_in_hg>"
      (Success wx) /\
    hPa wx = 1013.2078857421875%float.
Proof.
  destruct (empty_error_tag_is_no_error (Sample.env [])
              "<errors><error></error></errors><altim_in_hg>29.92</altim_in_hg>"
              8 eq_refl eq_refl) as (_ & _ & _ & H).
  destruct (H "29.92" 50 29.920000076293945%float eq_refl) as (wx & Hc & Hh).
  - discriminate.
  - reflexivity.
  - intros Hne. exfalso. apply Hne. reflexivity.
  - intros Hne. exfalso. apply Hne. reflexivity.
  - exists wx. split; [exact Hc|]. rewrite Hh. reflexivity.
Defined.

(** C9, as stated, fails.  In each body the first [<error>] is directly
    followed by ['<'] and a non-empty [<altim_in_hg>] occurs behind it, yet
    the outcome is not Success: in the first the pressure is no number and
    [std::stof] throws; in the second the pressure is fine but the latitude
    is no number; in the third an empty [<altim_in_hg>] comes before the
    non-empty one and the result is NotFound. *)
Lemma empty_error_tag_then_bad_pressure :
  let body := "<error></error><altim_in_hg>abc</altim_in_hg>" in
  let body' :=
    "<error></error><latitude>north</latitude><altim_in_hg>29.92</altim_in_hg>" in
  let body'' :=
    "<error></error><altim_in_hg></altim_in_hg><altim_in_hg>29.92</altim_in_hg>" in
  find body "<error>" 0 = Some 0 /\
  get (0 + length "<error>") body = Some "<"%char /\
  GetXMLValue body "<altim_in_hg>" (0 + length "<error>") = ("abc", 31) /\
  WeatherProcessResponse (Sample.env []) body Sample.world0 =
    (Throw (StdException "stof"), extend Sample.world0 [EvProcess body]) /\
  (forall wx, ~ classifies (Sample.env []) body (Success wx)) /\
  GetXMLValue body' "<altim_in_hg>" (0 + length "<error>") = ("29.92", 59) /\
  WeatherProcessResponse (Sample.env []) body' Sample.world0 =
    (Throw (StdException "stof"), extend Sample.world0 [EvProcess body']) /\
  find body'' "<altim_in_hg>29.92<" (0 + length "<error>") = Some 42 /\
  classifies (Sample.env []) body'' NotFound.
Proof.
  cbv zeta. repeat split; try reflexivity.
  intros wx H. specialize (H Sample.world0). vm_compute in H. discriminate.
Qed.

(** ** Facts about traces *)

Section TraceFacts.

Lemma urls_set_app (a b : list Event) :
  urls_set (a ++ b) = (urls_set a ++ urls_set b)%list.
Proof. apply flat_map_app. Qed.

Lemma performed_app (a b : list Event) :
  performed (a ++ b) = (performed a ++ performed b)%list.
Proof. apply flat_map_app. Qed.

Lemma processed_app (a b : list Event) :
  processed (a ++ b) = (processed a ++ processed b)%list.
Proof. apply flat_map_app. Qed.

Lemma published_app (a b : list Event) :
  published (a ++ b) = (published a ++ published b)%list.
Proof. apply flat_map_app. Qed.

Lemma last_default_irrelevant {A : Type} (l : list A) (d d' : A) :
  l <> [] -> last l d = last l d'.
Proof.
  induction l as [|x l IH]; [congruence|]. intros _.
  destruct l as [|y l]; [reflexivity|].
  change (last (y :: l) d = last (y :: l) d'). apply IH. discriminate.
Qed.

Lemma last_app {A : Type} (a b : list A) (d : A) :
  last (a ++ b) d = last b (last a d).
Proof.
  induction a as [|x a IH]; [reflexivity|].
  destruct a as [|y a].
  - destruct b as [|z b]; [reflexivity|].
    change (last (z :: b) d = last (z :: b) x).
    apply last_default_irrelevant. discriminate.
  - exact IH.
Qed.

Lemma evolves_refl (w : World) : evolves w w [].
Proof. unfold evolves. simpl. now rewrite app_nil_r. Qed.

Lemma evolves_trans (w1 w2 w3 : World) (a b : list Event) :
  evolves w1 w2 a -> evolves w2 w3 b -> evolves w1 w3 (a ++ b).
Proof.
  intros (Ht1 & Hn1 & Hw1) (Ht2 & Hn2 & Hw2). unfold evolves.
  rewrite Ht2, Ht1, Hn2, Hn1, Hw2, Hw1, published_app, last_app.
  now rewrite app_assoc.
Qed.

Lemma evolves_extend (w : World) (evs : list Event) :
  published evs = [] -> evolves w (extend w evs) evs.
Proof. intros H. unfold evolves, extend. simpl. now rewrite H. Qed.

Lemma evolves_publish (w : World) (wx : Weather) :
  evolves w (publish wx w) [EvSetWeather wx].
Proof. unfold evolves, publish. simpl. auto. Qed.

End TraceFacts.

(** ** Facts about the worker *)

Section WorkerFacts.

Context (E : Env).

Lemma fold_append_from (chunks : list string) :
  forall buf,
    fold_left (fun b p => b ++ p) chunks buf
    = buf ++ fold_left (fun b p => b ++ p) chunks "".
Proof.
  induction chunks as [|c cs IH]; intros buf; simpl.
  - now rewrite append_nil_r.
  - rewrite IH. symmetry. rewrite IH. now rewrite append_assoc.
Qed.

(** The write callback leaves what is in the buffer and adds the data. *)
Lemma write_callback_appends (t : Transfer) (buf : string) :
  fold_left (fun buf ptr => fst (WeatherFetchCB ptr buf)) (chunks t) buf
  = buf ++ received t.
Proof. exact (fold_append_from (chunks t) buf). Qed.

Lemma curl_easy_perform_run (h : CURL) (url : Url) (tmo : Z) (buf : string)
  (w : World) :
  curl_easy_perform E h url tmo buf w =
  (Ok (cc (curl_transfer E (transfersDone h)
             (mkRequest url tmo (sslNoRevoke h))),
       mkCURL (sslNoRevoke h) (S (transfersDone h))
         (responseCode (curl_transfer E (transfersDone h)
                          (mkRequest url tmo (sslNoRevoke h)))),
       buf ++ received (curl_transfer E (transfersDone h)
                          (mkRequest url tmo (sslNoRevoke h))),
       errtxt (curl_transfer E (transfersDone h)
                 (mkRequest url tmo (sslNoRevoke h)))),
   extend w [EvPerform (mkRequest url tmo (sslNoRevoke h))]).
Proof.
  unfold curl_easy_perform, bind, emit, ret.
  now rewrite write_callback_appends.
Qed.

(** A transfer that succeeds at once is the only one of its request. *)
Lemma perform_direct (h : CURL) (url : Url) (tmo : Z) (buf : string)
  (w : World) :
  cc (curl_transfer E (transfersDone h) (mkRequest url tmo (sslNoRevoke h)))
    = CURLE_OK ->
  WeatherFetch_perform E h url tmo buf w =
  (Ok (CURLE_OK,
       mkCURL (sslNoRevoke h) (S (transfersDone h))
         (responseCode (curl_transfer E (transfersDone h)
                          (mkRequest url tmo (sslNoRevoke h)))),
       buf ++ received (curl_transfer E (transfersDone h)
                          (mkRequest url tmo (sslNoRevoke h))),
       errtxt (curl_transfer E (transfersDone h)
                 (mkRequest url tmo (sslNoRevoke h)))),
   extend w [EvPerform (mkRequest url tmo (sslNoRevoke h))]).
Proof.
  intros Hcc. unfold WeatherFetch_perform, bind.
  rewrite curl_easy_perform_run, Hcc. reflexivity.
Qed.

(** Whatever the network does, the block performs one or two transfers
    of the same URL, adds their data to the buffer and publishes
    nothing. *)
Lemma perform_spec (h : CURL) (url : Url) (tmo : Z) (buf : string)
  (w : World) :
  exists cc h' data err evs,
    WeatherFetch_perform E h url tmo buf w
      = (Ok (cc, h', buf ++ data, err), extend w evs) /\
    urls_set evs = [] /\ published evs = [] /\ processed evs = [] /\
    Forall (fun rq => rqUrl rq = url) (performed evs) /\
    1 <= List.length (performed evs) <= 2.
Proof.
  unfold WeatherFetch_perform, bind.
  rewrite curl_easy_perform_run.
  set (t1 := curl_transfer E (transfersDone h)
               (mkRequest url tmo (sslNoRevoke h))).
  destruct (cc t1 =? CURLE_OK)%Z eqn:Hcc1; simpl.
  { unfold ret. do 5 eexists. split; [reflexivity|].
    simpl. repeat split; auto. }
  destruct (IsRevocationError E (errtxt t1)) eqn:Hrev.
  - unfold LOG_MSG, emit. rewrite curl_easy_perform_run. simpl.
    set (t2 := curl_transfer E (S (transfersDone h)) (mkRequest url tmo true)).
    destruct (cc t2 =? CURLE_OK)%Z eqn:Hcc2; simpl; unfold ret;
      rewrite ?extend_extend, append_assoc;
      (do 5 eexists; split; [reflexivity|]);
      simpl; repeat split; auto.
  - unfold ret. simpl. rewrite Hcc1. simpl.
    unfold LOG_MSG, emit. rewrite extend_extend.
    do 5 eexists. split; [reflexivity|].
    simpl. repeat split; auto.
Qed.

(** A pass whose transfer succeeds at once with HTTP 200 hands the
    buffer, old contents first, to the interpreter and goes by its
    verdict. *)
Lemma pass_direct_200 (_lat _lon : float) (l : Locals) (fr : Frame) :
  let url := weather_url E (radius_nm l) _lon _lat in
  let rq := mkRequest url (netwTimeout (globals fr)) (sslNoRevoke (pCurl l)) in
  let t := curl_transfer E (transfersDone (pCurl l)) rq in
  let h := mkCURL (sslNoRevoke (pCurl l)) (S (transfersDone (pCurl l)))
             (responseCode t) in
  let buf := readBuf l ++ received t in
  cc t = CURLE_OK ->
  responseCode t = HTTP_OK ->
  WeatherFetch_pass E _lat _lon l fr =
  match WeatherProcessResponse E buf
          (extend (globals fr) [EvSetUrl url; EvPerform rq]) with
  | (Ok true, w') =>
      (Ok (false, mkLocals (radius_nm l) buf (errtxt t) h), mkFrame w' true)
  | (Ok false, w') =>
      (Ok (if (radius_nm l <? MAX_WEATHER_RADIUS_NM)%float
           then (true, mkLocals MAX_WEATHER_RADIUS_NM buf (errtxt t) h)
           else (false, mkLocals (radius_nm l) buf (errtxt t) h)),
       mkFrame (extend w' [EvLog logWARN (WARN_NO_WEATHER (radius_nm l))])
         false)
  | (Throw e, w') => (Throw e, mkFrame w' (bRet fr))
  | (OutOfFuel, w') => (OutOfFuel, mkFrame w' (bRet fr))
  end.
Proof.
  intros url rq t h buf Hcc Hrc.
  unfold WeatherFetch_pass, bind, glob, lift, GetNetwTimeout, emit. simpl.
  rewrite perform_direct by exact Hcc.
  rewrite extend_extend. simpl.
  fold url rq t. rewrite Hrc. simpl. fold buf.
  destruct (WeatherProcessResponse E buf
              (extend (globals fr) [EvSetUrl url; EvPerform rq]))
    as [[[|]| |] w']; unfold set_bRet, ret, LOG_MSG, emit; simpl;
    subst h; rewrite ?Hrc; try reflexivity.
  destruct (radius_nm l <? MAX_WEATHER_RADIUS_NM)%float; reflexivity.
Qed.

(** Whatever the network and the interpreter do, one pass sets up one
    request, performs it once or twice, publishes at most once -- exactly
    when it sets [bRet] -- and asks for a repetition only below the
    maximum radius, which it then raises to the maximum.  If the
    interpreter throws on the buffer it is handed, so does the pass. *)
Lemma pass_spec (_lat _lon : float) (l : Locals) (fr : Frame) :
  bRet fr = false ->
  exists r fr' evs,
    WeatherFetch_pass E _lat _lon l fr = (r, fr') /\
    evolves (globals fr) (globals fr') evs /\
    urls_set evs = [weather_url E (radius_nm l) _lon _lat] /\
    Forall (fun rq => rqUrl rq = weather_url E (radius_nm l) _lon _lat)
      (performed evs) /\
    1 <= List.length (performed evs) <= 2 /\
    published evs = (if bRet fr' then [weather (globals fr')] else []) /\
    match r with
    | Ok (bRepeat, l') =>
        bRepeat = true ->
        bRet fr' = false /\
        (radius_nm l <? MAX_WEATHER_RADIUS_NM)%float = true /\
        radius_nm l' = MAX_WEATHER_RADIUS_NM
    | Throw _ => bRet fr' = false
    | OutOfFuel => False
    end /\
    (forall body e,
       In body (processed evs) -> classifies E body (Raised e) -> r = Throw e).
Proof.
  intros Hb.
  unfold WeatherFetch_pass, bind, glob, lift, GetNetwTimeout, emit. simpl.
  set (url := weather_url E (radius_nm l) _lon _lat).
  destruct (perform_spec (pCurl l) url (netwTimeout (globals fr)) (readBuf l)
              (extend (globals fr) [EvSetUrl url]))
    as (c & h' & data & err & evs & Heq & Hu & Hp & Hpr & Hf & Hlen).
  rewrite Heq. simpl. rewrite extend_extend.
  assert (Hevs : published ([EvSetUrl url] ++ evs) = []) by exact Hp.
  assert (Hurl : urls_set ([EvSetUrl url] ++ evs) = [url])
    by (simpl; now rewrite Hu).
  assert (Hperf : performed ([EvSetUrl url] ++ evs) = performed evs)
    by reflexivity.
  assert (Hproc : processed ([EvSetUrl url] ++ evs) = []) by exact Hpr.
  set (evs1 := ([EvSetUrl url] ++ evs)%list) in *.
  destruct (c =? CURLE_OK)%Z; simpl.
  2:{ unfold ret.
      exists (Ok (false, mkLocals (radius_nm l) (readBuf l ++ data) err h')),
        (mkFrame (extend (globals fr) evs1) (bRet fr)), evs1.
      split; [reflexivity|]. split; [now apply evolves_extend|].
      rewrite Hb, Hperf, Hproc. simpl.
      repeat split; auto; try lia; try discriminate; try contradiction. }
  destruct (lastResponseCode h' =? HTTP_OK)%Z; simpl.
  2:{ unfold LOG_MSG, emit, ret. simpl. rewrite extend_extend.
      eexists _, _, (evs1 ++ [_])%list. split; [reflexivity|].
      split; [apply evolves_extend; now rewrite published_app, Hevs|].
      rewrite Hb, urls_set_app, performed_app, published_app, processed_app,
        Hevs, Hurl, Hperf, Hproc.
      simpl. rewrite app_nil_r.
      repeat split; auto; try lia; try discriminate; try contradiction. }
  destruct (WeatherProcessResponse_cases E (readBuf l ++ data)
              (extend (globals fr) evs1))
    as [[wx H]|[(evs2 & H & Hp2 & Hu2 & Hf2 & Hpr2)|[e H]]]; rewrite H; simpl.
  - unfold set_bRet, ret. simpl.
    eexists _, _, ((evs1 ++ [EvProcess (readBuf l ++ data)])
                   ++ [EvSetWeather wx])%list.
    split; [reflexivity|]. split.
    { eapply evolves_trans; [|apply evolves_publish].
      eapply evolves_trans.
      - apply evolves_extend. exact Hevs.
      - apply evolves_extend. reflexivity. }
    rewrite !urls_set_app, !performed_app, !published_app, !processed_app,
      Hevs, Hurl, Hperf, Hproc.
    simpl. rewrite !app_nil_r.
    repeat split; auto; try lia; try discriminate.
    intros body e [<-|[]] Hc. rewrite (Hc _) in H. discriminate.
  - unfold set_bRet, LOG_MSG, emit, ret. simpl. rewrite !extend_extend.
    set (evs3 := (evs1 ++ (EvProcess (readBuf l ++ data) :: evs2)
                  ++ [EvLog logWARN (WARN_NO_WEATHER (radius_nm l))])%list).
    assert (Hp3 : published evs3 = []).
    { unfold evs3. rewrite !published_app, Hevs. simpl. now rewrite Hp2. }
    assert (Hu3 : urls_set evs3 = [url]).
    { unfold evs3. rewrite !urls_set_app, Hurl. simpl. now rewrite Hu2. }
    assert (Hf3 : performed evs3 = performed evs).
    { unfold evs3. rewrite !performed_app, Hperf. simpl.
      now rewrite Hf2, app_nil_r. }
    assert (Hpr3 : processed evs3 = [readBuf l ++ data]).
    { unfold evs3. rewrite !processed_app, Hproc. simpl.
      now rewrite Hpr2. }
    assert (Hno : forall body e,
               In body (processed evs3) -> ~ classifies E body (Raised e)).
    { rewrite Hpr3. intros body e [<-|[]] Hc. rewrite (Hc _) in H.
      discriminate. }
    destruct (radius_nm l <? MAX_WEATHER_RADIUS_NM)%float eqn:Hr; simpl;
      (eexists _, _, evs3; split; [reflexivity|]);
      (split; [now apply evolves_extend|]);
      rewrite Hu3, Hf3, Hp3; simpl;
      repeat split; auto; try lia; try discriminate;
      intros body e0 Hin Hc; destruct (Hno body e0 Hin Hc).
  - eexists _, _, (evs1 ++ [EvProcess (readBuf l ++ data)])%list.
    split; [reflexivity|]. split.
    { eapply evolves_trans.
      - apply evolves_extend. exact Hevs.
      - apply evolves_extend. reflexivity. }
    rewrite Hb, urls_set_app, performed_app, published_app, processed_app,
      Hevs, Hurl, Hperf, Hproc.
    simpl. rewrite app_nil_r.
    repeat split; auto; try lia.
    intros body e0 [<-|[]] Hc. rewrite (Hc _) in H. congruence.
Qed.

(** At a radius that is not below the maximum the loop makes one pass. *)
Lemma loop_at_max (fuel : nat) (_lat _lon : float) (l : Locals) (fr : Frame) :
  1 <= fuel ->
  bRet fr = false ->
  (radius_nm l <? MAX_WEATHER_RADIUS_NM)%float = false ->
  exists r fr' evs,
    WeatherFetch_loop E fuel _lat _lon l fr = (r, fr') /\
    evolves (globals fr) (globals fr') evs /\
    urls_set evs = [weather_url E (radius_nm l) _lon _lat] /\
    Forall (fun rq => rqUrl rq = weather_url E (radius_nm l) _lon _lat)
      (performed evs) /\
    1 <= List.length (performed evs) <= 2 /\
    published evs = (if bRet fr' then [weather (globals fr')] else []) /\
    match r with
    | Ok _ => True
    | Throw _ => bRet fr' = false
    | OutOfFuel => False
    end /\
    (forall body e,
       In body (processed evs) -> classifies E body (Raised e) -> r = Throw e).
Proof.
  intros Hfuel Hb Hr. destruct fuel as [|fuel]; [lia|]. simpl.
  destruct (pass_spec _lat _lon l fr Hb)
    as (r & fr' & evs & Heq & Hev & Hu & Hf & Hlen & Hp & Hr' & Hraise).
  unfold bind. rewrite Heq.
  destruct r as [[[|] l']|e|]; try contradiction.
  - destruct (Hr' eq_refl) as (_ & Hlt & _). congruence.
  - unfold ret. exists (Ok l'), fr', evs.
    split; [reflexivity|]. split; [exact Hev|].
    repeat split; auto; try lia.
    intros body e Hin Hc. discriminate (Hraise body e Hin Hc).
  - exists (Throw e), fr', evs.
    split; [reflexivity|]. split; [exact Hev|].
    repeat split; auto; try lia.
    intros body e0 Hin Hc.
    pose proof (Hraise body e0 Hin Hc) as Hthrow. now injection Hthrow as ->.
Qed.

(** Two units of fuel are enough for the loop: it makes one pass, or two
    with the second at the maximum radius; it publishes at most once,
    exactly when it leaves [bRet] set; an exception of the interpreter
    ends it. *)
Lemma loop_spec (fuel : nat) (_lat _lon : float) (l : Locals) (fr : Frame) :
  2 <= fuel ->
  bRet fr = false ->
  exists r fr' evs,
    WeatherFetch_loop E fuel _lat _lon l fr = (r, fr') /\
    evolves (globals fr) (globals fr') evs /\
    (urls_set evs = [weather_url E (radius_nm l) _lon _lat] \/
     (radius_nm l <? MAX_WEATHER_RADIUS_NM)%float = true /\
     urls_set evs = [weather_url E (radius_nm l) _lon _lat;
                     weather_url E MAX_WEATHER_RADIUS_NM _lon _lat]) /\
    List.length (performed evs) <= 4 /\
    published evs = (if bRet fr' then [weather (globals fr')] else []) /\
    match r with
    | Ok _ => True
    | Throw _ => bRet fr' = false
    | OutOfFuel => False
    end /\
    (forall body e,
       In body (processed evs) -> classifies E body (Raised e) -> r = Throw e).
Proof.
  intros Hfuel Hb. destruct fuel as [|fuel]; [lia|]. simpl.
  destruct (pass_spec _lat _lon l fr Hb)
    as (r & fr1 & evs1 & Heq & Hev & Hu & Hf & Hlen & Hp & Hr' & Hraise).
  unfold bind. rewrite Heq.
  destruct r as [[[|] l']|e|]; try contradiction.
  - destruct (Hr' eq_refl) as (Hb1 & Hlt & Hmax).
    assert (Hr2 : (radius_nm l' <? MAX_WEATHER_RADIUS_NM)%float = false)
      by (rewrite Hmax; reflexivity).
    destruct (loop_at_max fuel _lat _lon l' fr1 ltac:(lia) Hb1 Hr2)
      as (r2 & fr2 & evs2 & Heq2 & Hev2 & Hu2 & Hf2 & Hlen2 & Hp2 & Hr2'
          & Hraise2).
    exists r2, fr2, (evs1 ++ evs2)%list. rewrite Hmax in Hu2.
    split; [exact Heq2|]. split; [eapply evolves_trans; eauto|].
    rewrite urls_set_app, performed_app, published_app, processed_app,
      length_app, Hu, Hu2.
    rewrite Hb1 in Hp. rewrite Hp, Hp2. simpl.
    repeat split; auto; try lia.
    intros body e Hin Hc. apply in_app_or in Hin as [Hin|Hin].
    + discriminate (Hraise body e Hin Hc).
    + exact (Hraise2 body e Hin Hc).
  - unfold ret. exists (Ok l'), fr1, evs1.
    split; [reflexivity|]. split; [exact Hev|].
    repeat split; auto; try lia.
    intros body e Hin Hc. discriminate (Hraise body e Hin Hc).
  - exists (Throw e), fr1, evs1.
    split; [reflexivity|]. split; [exact Hev|].
    repeat split; auto; try lia.
    intros body e0 Hin Hc.
    pose proof (Hraise body e0 Hin Hc) as Hthrow. now injection Hthrow as ->.
Qed.

(** [WeatherFetch] seen from outside, for any network and any body:
    with two units of fuel or more it returns, an exception never leaves
    it, at most two requests are set up, the second one only from below
    the maximum radius and at the maximum radius, and the weather is
    published at most once, exactly when the result is [true].  If the
    interpreter throws on a buffer it is handed, the result is [false] and
    the exception is logged. *)
Lemma WeatherFetch_spec (fuel : nat) (_lat _lon _radius_nm : float)
  (w : World) :
  2 <= fuel ->
  exists b w' evs,
    WeatherFetch E fuel _lat _lon _radius_nm w = (Ok b, w') /\
    evolves w w' evs /\
    (urls_set evs = [] \/
     urls_set evs = [weather_url E _radius_nm _lon _lat] \/
     (_radius_nm <? MAX_WEATHER_RADIUS_NM)%float = true /\
     urls_set evs = [weather_url E _radius_nm _lon _lat;
                     weather_url E MAX_WEATHER_RADIUS_NM _lon _lat]) /\
    List.length (performed evs) <= 4 /\
    published evs = (if b then [weather w'] else []) /\
    (forall body e,
       In body (processed evs) -> classifies E body (Raised e) ->
       b = false /\ last evs (EvSetUrl (weather_url E _radius_nm _lon _lat))
                    = EvLog logERR (exception_msg e)).
Proof.
  intros Hfuel. unfold WeatherFetch, WeatherFetch_try.
  destruct (curl_easy_init_ok E); simpl.
  2:{ unfold bind, glob, lift, LOG_MSG, emit, ret. simpl.
      eexists _, _, [_]. split; [reflexivity|].
      split; [now apply evolves_extend|]. simpl.
      repeat split; auto; try lia; try contradiction. }
  destruct (loop_spec fuel _lat _lon
              (mkLocals _radius_nm "" "" (mkCURL false 0 0%Z))
              (mkFrame w false) Hfuel eq_refl)
    as (r & fr' & evs & Heq & Hev & Hu & Hlen & Hp & Hr & Hraise).
  unfold bind. rewrite Heq. simpl in Hev, Hu.
  destruct r as [l'|e|]; try contradiction.
  - exists (bRet fr'), (globals fr'), evs.
    split; [reflexivity|]. split; [exact Hev|].
    split; [auto|]. split; [exact Hlen|]. split; [exact Hp|].
    intros body e Hin Hc. discriminate (Hraise body e Hin Hc).
  - exists false, (extend (globals fr') [EvLog logERR (exception_msg e)]),
      (evs ++ [EvLog logERR (exception_msg e)])%list.
    rewrite Hr in *.
    split; [destruct e; reflexivity|].
    split; [eapply evolves_trans; [exact Hev|now apply evolves_extend]|].
    rewrite urls_set_app, performed_app, published_app, !length_app, Hp.
    simpl. rewrite app_nil_r.
    split; [auto|]. split; [lia|]. split; [reflexivity|].
    intros body e0 Hin Hc. rewrite processed_app in Hin. simpl in Hin.
    rewrite app_nil_r in Hin.
    pose proof (Hraise body e0 Hin Hc) as Heq'. injection Heq' as <-.
    split; [reflexivity|]. now rewrite last_app.
Qed.


(** [WeatherFetch] once the handle is there: the loop, then the epilogue
    or one of the handlers. *)
Lemma WeatherFetch_run (fuel : nat) (_lat _lon _radius_nm : float)
  (w : World) :
  curl_easy_init_ok E = true ->
  WeatherFetch E fuel _lat _lon _radius_nm w =
  match WeatherFetch_loop E fuel _lat _lon
          (mkLocals _radius_nm "" "" (mkCURL false 0 0%Z))
          (mkFrame w false) with
  | (Ok _, fr) => (Ok (bRet fr), globals fr)
  | (Throw e, fr) =>
      (Ok (bRet fr), extend (globals fr) [EvLog logERR (exception_msg e)])
  | (OutOfFuel, fr) => (OutOfFuel, globals fr)
  end.
Proof.
  intros Hinit. unfold WeatherFetch, WeatherFetch_try. rewrite Hinit. simpl.
  unfold bind.
  destruct (WeatherFetch_loop E fuel _lat _lon _ (mkFrame w false))
    as [[l'|[what|]|] fr]; reflexivity.
Qed.

(** The first pass of a fetch whose transfer succeeds at once with HTTP
    200 and on whose body the interpreter returns [false]. *)
Lemma first_pass_no_weather (_lat _lon _radius_nm : float) (w : World)
  (evs0 : list Event) :
  let rq0 := first_request E w _lat _lon _radius_nm in
  let t0 := curl_transfer E 0 rq0 in
  cc t0 = CURLE_OK ->
  responseCode t0 = HTTP_OK ->
  returns_false E (received t0) evs0 ->
  WeatherFetch_pass E _lat _lon
    (mkLocals _radius_nm "" "" (mkCURL false 0 0%Z)) (mkFrame w false)
  = (Ok (if (_radius_nm <? MAX_WEATHER_RADIUS_NM)%float
         then (true, mkLocals MAX_WEATHER_RADIUS_NM (received t0)
                       (errtxt t0) (mkCURL false 1 (responseCode t0)))
         else (false, mkLocals _radius_nm (received t0)
                        (errtxt t0) (mkCURL false 1 (responseCode t0)))),
     mkFrame
       (extend w ([EvSetUrl (weather_url E _radius_nm _lon _lat);
                   EvPerform rq0; EvProcess (received t0)]
                  ++ evs0
                  ++ [EvLog logWARN (WARN_NO_WEATHER _radius_nm)]))
       false).
Proof.
  intros rq0 t0 Hcc Hrc Hrun.
  pose proof (pass_direct_200 _lat _lon
                (mkLocals _radius_nm "" "" (mkCURL false 0 0%Z))
                (mkFrame w false) Hcc Hrc) as Hpass.
  cbn [radius_nm readBuf pCurl sslNoRevoke transfersDone globals bRet append]
    in Hpass.
  change (mkRequest (weather_url E _radius_nm _lon _lat) (netwTimeout w) false)
    with rq0 in Hpass.
  fold t0 in Hpass.
  rewrite Hrun in Hpass. rewrite !extend_extend in Hpass.
  rewrite Hpass. reflexivity.
Qed.




(** The interpreter throws on the first body: the handler logs, the
    fetch is over with [bRet] as initialised. *)
Lemma done_after_exception (fuel : nat) (_lat _lon _radius_nm : float)
  (w : World) (e : exception) :
  let rq0 := first_request E w _lat _lon _radius_nm in
  let t0 := curl_transfer E 0 rq0 in
  1 <= fuel ->
  curl_easy_init_ok E = true ->
  cc t0 = CURLE_OK ->
  responseCode t0 = HTTP_OK ->
  classifies E (received t0) (Raised e) ->
  WeatherFetch E fuel _lat _lon _radius_nm w
  = (Ok false,
     extend w [EvSetUrl (weather_url E _radius_nm _lon _lat);
               EvPerform rq0; EvProcess (received t0);
               EvLog logERR (exception_msg e)]).
Proof.
  intros rq0 t0 Hfuel Hinit Hcc Hrc Hrun.
  rewrite WeatherFetch_run by exact Hinit.
  destruct fuel as [|fuel]; [lia|]. simpl. unfold bind.
  pose proof (pass_direct_200 _lat _lon
                (mkLocals _radius_nm "" "" (mkCURL false 0 0%Z))
                (mkFrame w false) Hcc Hrc) as Hpass.
  cbn [radius_nm readBuf pCurl sslNoRevoke transfersDone globals bRet append]
    in Hpass.
  change (mkRequest (weather_url E _radius_nm _lon _lat) (netwTimeout w) false)
    with rq0 in Hpass.
  fold t0 in Hpass.
  rewrite (Hrun _) in Hpass. rewrite !extend_extend in Hpass.
  rewrite Hpass. cbn [globals bRet]. now rewrite extend_extend.
Qed.


End WorkerFacts.

(** A transfer answered with HTTP 500: the status is logged, the body is
    not interpreted, the result is [false]. *)
Example http_500_is_not_interpreted :
  let E := Sample.env [mkTransfer CURLE_OK "" ["Internal Server Error"] 500%Z] in
  WeatherFetch E 2 51%float 7%float 50%float Sample.world0
  = (Ok false,
     extend Sample.world0
       [EvSetUrl (weather_url E 50%float 7%float 51%float);
        EvPerform (first_request E Sample.world0 51%float 7%float 50%float);
        EvLog logERR (ERR_WEATHER_REQU 500%Z)]).
Proof. vm_compute. reflexivity. Qed.

(** A transfer failing on the revocation check is repeated once with the
    check switched off; the answer to the repetition is interpreted. *)
Example revocation_error_is_retried_once :
  let E := Sample.env
             [mkTransfer 35%Z "schannel: revocation check failed" [] 0%Z;
              Sample.http_200 "<altim_in_hg>29.92</altim_in_hg>"] in
  fst (WeatherFetch E 2 51%float 7%float 50%float Sample.world0) = Ok true /\
  performed (trace (snd (WeatherFetch E 2 51%float 7%float 50%float
                           Sample.world0)))
  = [mkRequest (weather_url E 50%float 7%float 51%float) 90%Z false;
     mkRequest (weather_url E 50%float 7%float 51%float) 90%Z true].
Proof. split; vm_compute; reflexivity. Qed.

(** ** The coordinator *)

(** C1 -- single flight: in every state of the process in which
    [futWeather] holds a handle whose poll does not report ready, a call of
    [WeatherUpdate] with any position (in particular one whose latitude
    passes the gate) and any radius returns [false], starts no worker and
    leaves the stored handle, and everything else, as it was. *)
Theorem single_flight (E : Env) (pos : positionTy) (radius_nm : float)
  (p : Process) (f : future) :
  futWeather p = Some f ->
  futStatus f <> fs_ready ->
  WeatherUpdate E pos radius_nm p = (false, p) /\
  workers (snd (WeatherUpdate E pos radius_nm p)) = workers p /\
  futWeather (snd (WeatherUpdate E pos radius_nm p)) = Some f.
Proof.
  intros Hf Hs.
  assert (H : WeatherUpdate E pos radius_nm p = (false, p)).
  { unfold WeatherUpdate. destruct (80.0 <=? lat pos)%float; [reflexivity|].
    rewrite Hf. destruct (futStatus f); try reflexivity. congruence. }
  rewrite H. auto.
Qed.

Lemma single_flight_witness :
  WeatherUpdate (Sample.env []) (mkPos 51%float 7%float) 50%float
    (mkProcess Sample.world0
       (Some (mkFuture (51%float, 7%float, 50%float) fs_timeout))
       [(51%float, 7%float, 50%float)])
  = (false,
     mkProcess Sample.world0
       (Some (mkFuture (51%float, 7%float, 50%float) fs_timeout))
       [(51%float, 7%float, 50%float)]).
Proof.
  apply (single_flight (Sample.env []) (mkPos 51%float 7%float) 50%float
           (mkProcess Sample.world0
              (Some (mkFuture (51%float, 7%float, 50%float) fs_timeout))
              [(51%float, 7%float, 50%float)])
           (mkFuture (51%float, 7%float, 50%float) fs_timeout)).
  - reflexivity.
  - discriminate.
Defined.

(** C2, as the code has it -- latitude gate: for every position with
    latitude >= 80 and every radius, [WeatherUpdate] returns [false]
    without starting a worker (so without any network call) and without
    touching [futWeather]. *)
Theorem latitude_gate_north (E : Env) (pos : positionTy) (radius_nm : float)
  (p : Process) :
  (80.0 <=? lat pos)%float = true ->
  WeatherUpdate E pos radius_nm p = (false, p).
Proof. intros H. unfold WeatherUpdate. now rewrite H. Qed.

Lemma latitude_gate_north_witness :
  WeatherUpdate (Sample.env []) (mkPos 85.5%float 0%float) 50%float
    (mkProcess Sample.world0 None [])
  = (false, mkProcess Sample.world0 None []).
Proof.
  apply (latitude_gate_north (Sample.env []) (mkPos 85.5%float 0%float)
           50%float (mkProcess Sample.world0 None [])).
  reflexivity.
Defined.

(** C2, as stated, fails: at latitude -85 the absolute value is above 80,
    yet with no fetch under way [WeatherUpdate] returns [true], starts a
    worker and stores its handle.  The guard compares the latitude itself,
    not its absolute value. *)
Lemma latitude_gate_south_open :
  (80.0 <=? PrimFloat.abs (lat (mkPos (-85)%float 0%float)))%float = true /\
  WeatherUpdate (Sample.env []) (mkPos (-85)%float 0%float) 50%float
    (mkProcess Sample.world0 None [])
  = (true,
     mkProcess Sample.world0
       (Some (mkFuture ((-85)%float, 0%float, 50%float) fs_timeout))
       [((-85)%float, 0%float, 50%float)]).
Proof. split; vm_compute; reflexivity. Qed.

(** ** The worker *)






(** C7 -- sink frame, stale on failure: every fetch returns (an exception
    never leaves [WeatherFetch]); during it the weather is published at
    most once, and it is published exactly when the result is [true]
    (Success), the sink then holding the published value; on every other
    outcome -- nothing found, an error message, a failed transfer or HTTP
    status, a caught exception -- the sink holds what it held before. *)
Theorem sink_written_iff_success (E : Env) (fuel : nat)
  (_lat _lon _radius_nm : float) (w : World) :
  2 <= fuel ->
  exists b w' evs,
    WeatherFetch E fuel _lat _lon _radius_nm w = (Ok b, w') /\
    trace w' = (trace w ++ evs)%list /\
    List.length (published evs) <= 1 /\
    (b = true <-> published evs <> []) /\
    (b = true -> published evs = [weather w']) /\
    (b = false -> weather w' = weather w).
Proof.
  intros Hfuel.
  destruct (WeatherFetch_spec E fuel _lat _lon _radius_nm w Hfuel)
    as (b & w' & evs & Heq & (Ht & _ & Hw) & _ & _ & Hp & _).
  exists b, w', evs. split; [exact Heq|]. split; [exact Ht|].
  rewrite Hp in *. destruct b; simpl; repeat split;
    auto; try lia; try discriminate; congruence.
Qed.

Lemma sink_written_iff_success_witness :
  exists b w' evs,
    WeatherFetch
      (Sample.env [Sample.http_200 "<errors/><data/>";
                   Sample.http_200 "<altim_in_hg>29.92</altim_in_hg>"])
      2 51%float 7%float 50%float Sample.world0 = (Ok b, w') /\
    trace w' = (trace Sample.world0 ++ evs)%list /\
    List.length (published evs) <= 1 /\
    (b = true <-> published evs <> []) /\
    (b = true -> published evs = [weather w']) /\
    (b = false -> weather w' = weather Sample.world0).
Proof.
  exact (sink_written_iff_success
           (Sample.env [Sample.http_200 "<errors/><data/>";
                        Sample.http_200 "<altim_in_hg>29.92</altim_in_hg>"])
           2 51%float 7%float 50%float Sample.world0 (le_n 2)).
Defined.



(** C10, as the code has it -- a non-numeric pressure is contained: let
    [body] be a buffer in which the scan for [<error>] yields nothing and
    the first [<altim_in_hg>] at or after the cursor that scan leaves has a
    non-empty value which [std::stof] does not convert.  Then the
    interpreter throws on [body]; and every fetch returns, and if it has
    handed [body] to the interpreter -- as the HTTP-200 answer to its first
    request, or at the retry -- the exception has been caught inside
    [WeatherFetch] and logged, the result is [false] and the sink is not
    written.  When [body] is the HTTP-200 answer to the first request, this
    is what happens, and no further request is made. *)
Theorem bad_pressure_is_contained (E : Env) (fuel : nat)
  (_lat _lon _radius_nm : float) (w : World) (body : string) (e : exception) :
  let rq0 := first_request E w _lat _lon _radius_nm in
  let t0 := curl_transfer E 0 rq0 in
  let cursor := snd (GetXMLValue body "<error>" 0) in
  2 <= fuel ->
  fst (GetXMLValue body "<error>" 0) = "" ->
  fst (GetXMLValue body "<altim_in_hg>" cursor) <> "" ->
  stof E (fst (GetXMLValue body "<altim_in_hg>" cursor)) = inl e ->
  classifies E body (Raised e) /\
  (exists b w' evs,
     WeatherFetch E fuel _lat _lon _radius_nm w = (Ok b, w') /\
     trace w' = (trace w ++ evs)%list /\
     (In body (processed evs) ->
      b = false /\
      last evs (EvSetUrl (weather_url E _radius_nm _lon _lat))
      = EvLog logERR (exception_msg e) /\
      published evs = [] /\
      weather w' = weather w)) /\
  (curl_easy_init_ok E = true ->
   cc t0 = CURLE_OK ->
   responseCode t0 = HTTP_OK ->
   received t0 = body ->
   WeatherFetch E fuel _lat _lon _radius_nm w
   = (Ok false,
      extend w [EvSetUrl (weather_url E _radius_nm _lon _lat);
                EvPerform rq0; EvProcess body;
                EvLog logERR (exception_msg e)])).
Proof.
  intros rq0 t0 cursor Hfuel Herr Hne Hs.
  assert (Hc : classifies E body (Raised e))
    by exact (classifies_Raised E body e Herr Hne Hs).
  split; [exact Hc|]. split.
  - destruct (WeatherFetch_spec E fuel _lat _lon _radius_nm w Hfuel)
      as (b & w' & evs & Heq & (Ht & _ & Hw) & _ & _ & Hp & Hraise).
    exists b, w', evs. split; [exact Heq|]. split; [exact Ht|].
    intros Hin. destruct (Hraise body e Hin Hc) as [-> Hlast].
    rewrite Hp in Hw. auto.
  - intros Hinit Hcc Hrc Hbody.
    pose proof (done_after_exception E fuel _lat _lon _radius_nm w e
                  ltac:(lia) Hinit Hcc Hrc) as Hrun.
    fold rq0 t0 in Hrun. rewrite Hbody in Hrun. exact (Hrun Hc).
Qed.

Lemma bad_pressure_is_contained_witness :
  let E := Sample.env [Sample.http_200 "<altim_in_hg>abc</altim_in_hg>"] in
  WeatherFetch E 2 51%float 7%float 50%float Sample.world0
  = (Ok false,
     extend Sample.world0
       [EvSetUrl (weather_url E 50%float 7%float 51%float);
        EvPerform (first_request E Sample.world0 51%float 7%float 50%float);
        EvProcess "<altim_in_hg>abc</altim_in_hg>";
        EvLog logERR (MSG_FAILED_WITH_EXCEPTION "stof")]).
Proof.
  intros E.
  refine (proj2 (proj2 (bad_pressure_is_contained E 2 51%float 7%float
                          50%float Sample.world0
                          "<altim_in_hg>abc</altim_in_hg>"
                          (StdException "stof")
                          (le_n 2) eq_refl _ eq_refl))
            eq_refl eq_refl eq_refl eq_refl).
  discriminate.
Defined.

(** C10, as stated, fails.  In the first body the first [<altim_in_hg>]
    holds [abc], but an empty [<error>] element behind it moves the cursor
    past it; the pressure is read from the second [<altim_in_hg>], nothing
    throws, the worker returns [true] and publishes.  In the second body an
    error message comes first: the interpreter stops there, the conversion
    is never tried and no exception is logged. *)
Lemma bad_first_pressure_not_converted :
  let body1 :=
    "<altim_in_hg>abc</altim_in_hg><error></error><altim_in_hg>29.92</altim_in_hg>" in
  let body2 := "<error>Bad query</error><altim_in_hg>abc</altim_in_hg>" in
  let E1 := Sample.env [Sample.http_200 body1] in
  let E2 := Sample.env [Sample.http_200 body2] in
  GetXMLValue body1 "<altim_in_hg>" 0 = ("abc", 16) /\
  stof E1 "abc" = inl (StdException "stof") /\
  fst (WeatherFetch E1 2 51%float 7%float 100%float Sample.world0) = Ok true /\
  List.length (published (trace (snd
    (WeatherFetch E1 2 51%float 7%float 100%float Sample.world0)))) = 1 /\
  GetXMLValue body2 "<altim_in_hg>" 0 = ("abc", 40) /\
  WeatherFetch E2 2 51%float 7%float 100%float Sample.world0
  = (Ok false,
     extend Sample.world0
       [EvSetUrl (weather_url E2 100%float 7%float 51%float);
        EvPerform (first_request E2 Sample.world0 51%float 7%float 100%float);
        EvProcess body2;
        EvLog logERR (ERR_WEATHER_ERROR "Bad query");
        EvLog logWARN (WARN_NO_WEATHER 100%float)]).
Proof. cbv zeta. repeat split; vm_compute; reflexivity. Qed.

(** ** More about the scanner *)

Section ScannerMore.

Lemma occurs_at_length (s pat : string) (p : nat) :
  occurs_at s pat p -> p + length pat <= length s.
Proof.
  intros (u & v & -> & <-). rewrite !length_append. lia.
Qed.

(** Two ways of cutting one string: the shorter head is a head of the
    longer one. *)
Lemma append_split (a b c d : string) :
  a ++ b = c ++ d -> length c <= length a ->
  exists m, a = c ++ m /\ d = m ++ b.
Proof.
  revert a; induction c as [|x c IH]; intros a H Hl; simpl in *.
  - exists a. auto.
  - destruct a as [|y a]; simpl in *; [lia|].
    injection H as -> H. destruct (IH a H ltac:(lia)) as (m & -> & ->).
    exists m. auto.
Qed.

Lemma occurs_at_app_l (r s pat : string) (q : nat) :
  occurs_at r pat q -> occurs_at (r ++ s) pat q.
Proof.
  intros (u & v & -> & Hu). exists u, (v ++ s).
  now rewrite !append_assoc.
Qed.

Lemma occurs_at_app_inv (r s pat : string) (q : nat) :
  occurs_at (r ++ s) pat q -> q + length pat <= length r ->
  occurs_at r pat q.
Proof.
  intros (u & v & H & Hu) Hl.
  rewrite <- append_assoc in H.
  destruct (append_split r s (u ++ pat) v H) as (m & -> & _).
  { rewrite length_append. lia. }
  exists u, m. now rewrite append_assoc.
Qed.

(** What [find] has found stays found, at the same place, when text is
    added behind. *)
Lemma find_app_stable (r s pat : string) (pos p : nat) :
  find r pat pos = Some p -> find (r ++ s) pat pos = Some p.
Proof.
  intros H. apply find_Some_iff in H as (Hle & Ho & Hmin).
  apply find_Some_iff. split; [exact Hle|]. split.
  - now apply occurs_at_app_l.
  - intros q Hq1 Hq2 Hq. apply (Hmin q Hq1 Hq2).
    apply (occurs_at_app_inv r s pat q Hq).
    apply occurs_at_length in Ho. lia.
Qed.

Lemma substring_app_stable (s : string) :
  forall r a n, a + n <= length r -> substring a n (r ++ s) = substring a n r.
Proof.
  intros r; induction r as [|c r IH]; intros a n H; simpl in *.
  - assert (a = 0) by lia. assert (n = 0) by lia. subst.
    destruct s; reflexivity.
  - destruct a as [|a].
    + destruct n as [|n]; [reflexivity|]. simpl. f_equal. apply IH. lia.
    + simpl. apply IH. lia.
Qed.

(** A stretch of a string, with what is before and behind it. *)
Lemma substring_cut (s : string) :
  forall a n, a + n <= length s ->
  exists u w, s = u ++ substring a n s ++ w /\ length u = a /\
              length (substring a n s) = n.
Proof.
  induction s as [|c s IH]; intros a n H; simpl in H.
  - assert (a = 0) by lia. assert (n = 0) by lia. subst.
    exists "", "". auto.
  - destruct a as [|a].
    + destruct n as [|n].
      * exists "", (String c s). auto.
      * destruct (IH 0 n ltac:(lia)) as (u & w & Hs & Hu & Hn).
        destruct u; [|discriminate]. simpl in Hs.
        exists "", w. simpl. rewrite Hn. split; [|auto]. now rewrite <- Hs.
    + destruct (IH a n ltac:(lia)) as (u & w & Hs & Hu & Hn).
      exists (String c u), w. simpl. rewrite Hn, Hu. split; [|auto].
      now rewrite <- Hs.
Qed.

End ScannerMore.

(** The value found between a tag and the next ['<'] holds no ['<']. *)
Lemma found_value_has_no_lt (r : string) (a q : nat) :
  find_char r "<"%char a = Some q ->
  find_char (substr r a (q - a)) "<"%char 0 = None.
Proof.
  intros H. apply find_Some_iff in H as (Hle & Ho & Hmin).
  apply find_None_iff. intros i _ Hi. apply occurs_at_char in Hi.
  unfold substr in Hi.
  destruct (Nat.lt_ge_cases i (q - a)) as [Hlt|Hge].
  - rewrite substring_correct1 in Hi by exact Hlt.
    apply (Hmin (i + a)); try lia. now apply occurs_at_char.
  - rewrite substring_correct2 in Hi by exact Hge. discriminate.
Qed.

(** X1 -- the three ways [GetXMLValue] can end, for every buffer, tag and
    cursor.  Either the tag is not found from the cursor: empty value,
    cursor unchanged.  Or the tag is found but no ['<'] follows it: empty
    value, cursor 0.  Or the buffer reads, from the first occurrence of the
    tag at or after the cursor, tag, value, ['<']: the cursor then rests on
    that ['<'].  In every case the value holds no ['<']. *)
Theorem GetXMLValue_three_ways (r tag : string) (pos : nat) :
  find_char (fst (GetXMLValue r tag pos)) "<"%char 0 = None /\
  ((find r tag pos = None /\ GetXMLValue r tag pos = ("", pos)) \/
   (exists p, find r tag pos = Some p /\
              find_char r "<"%char (p + length tag) = None /\
              GetXMLValue r tag pos = ("", 0)) \/
   (exists p v, find r tag pos = Some p /\
                GetXMLValue r tag pos = (v, p + length tag + length v) /\
                occurs_at r (tag ++ v ++ "<") p /\
                get (p + length tag + length v) r = Some "<"%char)).
Proof.
  unfold GetXMLValue.
  destruct (find r tag pos) as [p|] eqn:Hf; [|split; [reflexivity|left; auto]].
  destruct (find_char r "<"%char (p + length tag)) as [q|] eqn:Hq.
  2:{ split; [reflexivity|]. right; left. exists p. auto. }
  split; [exact (found_value_has_no_lt _ _ _ Hq)|]. right; right.
  pose proof Hq as Hq'. apply find_Some_iff in Hq' as (Hle & Hlt & _).
  pose proof (occurs_at_length _ _ _ Hlt) as Hlen. simpl in Hlen.
  destruct (substring_cut r (p + length tag) (q - (p + length tag)) ltac:(lia))
    as (u & w & Hr & Hu & Hv).
  set (v := substring (p + length tag) (q - (p + length tag)) r) in *.
  assert (Hqv : q = p + length tag + length v) by lia.
  apply occurs_at_char in Hlt.
  exists p, v. split; [reflexivity|]. unfold substr. fold v.
  split; [now rewrite Hqv|]. split; [|now rewrite <- Hqv].
  (* the head [u] ends with the tag *)
  apply find_Some_iff in Hf as (_ & (u0 & t & Hr0 & Hu0) & _).
  assert (Hsplit : exists m, u = u0 ++ m /\ tag ++ t = m ++ v ++ w).
  { apply (append_split u (v ++ w) u0 (tag ++ t)); [congruence | lia]. }
  destruct Hsplit as (m & -> & Ht). rewrite length_append in Hu.
  assert (Hm : length m = length tag) by lia.
  destruct (append_split m (v ++ w) tag t (eq_sym Ht) ltac:(lia))
    as (m' & -> & _).
  rewrite length_append in Hm. destruct m'; [|simpl in Hm; lia].
  rewrite append_nil_r in *.
  (* the tail [w] begins with the ['<'] *)
  rewrite Hr, Hqv in Hlt.
  replace (p + length tag + length v)
    with (length (u0 ++ tag) + (length v + 0)) in Hlt
    by (rewrite length_append; lia).
  rewrite get_app_r, get_app_r in Hlt.
  destruct w as [|c w]; [discriminate|]. simpl in Hlt. injection Hlt as ->.
  exists u0, w. split; [|exact Hu0].
  rewrite Hr at 1. now rewrite !append_assoc.
Qed.

(** X2 -- round trip: a value free of ['<'] put between a tag and a ['<']
    is what [GetXMLValue] reads back from the start of the buffer, whatever
    follows; the cursor comes to rest on that ['<']. *)
Theorem GetXMLValue_reads_back (tag v rest : string) :
  find_char v "<"%char 0 = None ->
  GetXMLValue (tag ++ v ++ String "<"%char rest) tag 0
  = (v, length tag + length v) /\
  get (length tag + length v) (tag ++ v ++ String "<"%char rest)
  = Some "<"%char.
Proof.
  intros Hv. split.
  - apply (GetXMLValue_element "" tag v rest 0); [|exact Hv].
    apply find_Some_iff. split; [lia|]. split.
    + now exists "", (v ++ String "<"%char rest).
    + simpl. intros; lia.
  - rewrite get_app_r.
    replace (length v) with (length v + 0) by lia. now rewrite get_app_r.
Qed.

Lemma GetXMLValue_reads_back_witness :
  GetXMLValue ("<station_id>" ++ "KL18" ++ String "<"%char "/station_id>")
    "<station_id>" 0 = ("KL18", 16).
Proof.
  exact (proj1 (GetXMLValue_reads_back "<station_id>" "KL18" "/station_id>"
                  eq_refl)).
Defined.

(** X3 -- a value cut short: if the buffer ends within the value of the
    first tag found, before any ['<'], the result is the empty string and
    the cursor goes back to 0, whatever it was. *)
Theorem GetXMLValue_cut_short (pre tag x : string) (pos : nat) :
  find (pre ++ tag ++ x) tag pos = Some (length pre) ->
  find_char x "<"%char 0 = None ->
  GetXMLValue (pre ++ tag ++ x) tag pos = ("", 0).
Proof.
  intros Hf Hx. apply (GetXMLValue_unterminated _ _ _ _ Hf).
  apply find_None_iff. intros q Hq Ho.
  apply occurs_at_char in Ho.
  replace q with (length (pre ++ tag) + (q - length pre - length tag)) in Ho
    by (rewrite length_append; lia).
  rewrite <- append_assoc, get_app_r in Ho.
  exact (find_char_None_get _ _ Hx _ Ho).
Qed.

Lemma GetXMLValue_cut_short_witness :
  GetXMLValue ("<data>" ++ "<altim_in_hg>" ++ "29.8") "<altim_in_hg>" 3
  = ("", 0).
Proof.
  exact (GetXMLValue_cut_short "<data>" "<altim_in_hg>" "29.8" 3
           eq_refl eq_refl).
Defined.

(** X4 -- a non-empty value is final: data arriving later at the end of
    the buffer changes neither a non-empty value nor the cursor that came
    with it.  (An empty value is not final: the tag or the closing ['<'] may
    still arrive.) *)
Theorem GetXMLValue_stable_under_append (r s tag : string) (pos : nat) :
  fst (GetXMLValue r tag pos) <> "" ->
  GetXMLValue (r ++ s) tag pos = GetXMLValue r tag pos.
Proof.
  intros Hne.
  destruct (find r tag pos) as [p|] eqn:Hf.
  2:{ rewrite (GetXMLValue_not_found _ _ _ Hf) in Hne. now elim Hne. }
  destruct (find_char r "<"%char (p + length tag)) as [q|] eqn:Hq.
  2:{ rewrite (GetXMLValue_unterminated _ _ _ _ Hf Hq) in Hne. now elim Hne. }
  rewrite (GetXMLValue_found _ _ _ _ _ Hf Hq).
  rewrite (GetXMLValue_found (r ++ s) tag pos p q
             (find_app_stable _ _ _ _ _ Hf)
             (find_app_stable _ _ _ _ _ Hq)).
  f_equal. unfold substr. apply substring_app_stable.
  apply find_Some_iff in Hq as (Hle & Ho & _).
  apply occurs_at_length in Ho. simpl in Ho. lia.
Qed.

Lemma GetXMLValue_stable_under_append_witness :
  GetXMLValue ("<error>bad<" ++ "/error><altim_in_hg>29.9<") "<error>" 0
  = GetXMLValue "<error>bad<" "<error>" 0.
Proof.
  apply (GetXMLValue_stable_under_append "<error>bad<"
           "/error><altim_in_hg>29.9<" "<error>" 0).
  vm_compute. discriminate.
Defined.

(** An empty value is not final. *)
Example GetXMLValue_empty_not_final :
  GetXMLValue "<error>ba" "<error>" 0 = ("", 0) /\
  GetXMLValue ("<error>ba" ++ "d</error>") "<error>" 0 = ("bad", 10).
Proof. split; reflexivity. Qed.

(** ** More about the worker *)

Section WorkerMore.

Context (E : Env).

(** An error message found in a buffer is found again, the same, when the
    buffer has grown. *)
Lemma error_value_app (b0 b1 : string) :
  fst (GetXMLValue b0 "<error>" 0) <> "" ->
  fst (GetXMLValue (b0 ++ b1) "<error>" 0) = fst (GetXMLValue b0 "<error>" 0).
Proof.
  intros Hne.
  destruct (find b0 "<error>" 0) as [p|] eqn:Hf.
  2:{ rewrite (GetXMLValue_not_found _ _ _ Hf) in Hne. now elim Hne. }
  destruct (find_char b0 "<"%char (p + length "<error>")) as [q|] eqn:Hq.
  2:{ rewrite (GetXMLValue_unterminated _ _ _ _ Hf Hq) in Hne. now elim Hne. }
  rewrite (GetXMLValue_found _ _ _ _ _ Hf Hq).
  rewrite (GetXMLValue_found (b0 ++ b1) "<error>" 0 p q
             (find_app_stable _ _ _ _ _ Hf)
             (find_app_stable _ _ _ _ _ Hq)).
  cbn [fst]. unfold substr. apply substring_app_stable.
  apply find_Some_iff in Hq as (Hle & Ho & _).
  apply occurs_at_length in Ho. cbn [length] in *. lia.
Qed.

Lemma error_returns_false (body : string) :
  fst (GetXMLValue body "<error>" 0) <> "" ->
  returns_false E body
    [EvLog logERR (ERR_WEATHER_ERROR (fst (GetXMLValue body "<error>" 0)))].
Proof. intros Hne w. exact (classifies_ProtocolError E body Hne w). Qed.

Lemma max_radius_not_below_itself :
  (MAX_WEATHER_RADIUS_NM <? MAX_WEATHER_RADIUS_NM)%float = false.
Proof. reflexivity. Qed.

End WorkerMore.

(** X5 -- an error message dooms the widening retry.  Let the first
    transfer of a fetch below the maximum radius come back with HTTP 200 and
    a body in which the interpreter finds an error message [X].  The worker
    widens the radius and asks again; if that transfer comes back with HTTP
    200 too, then whatever its body holds -- valid weather included -- the
    interpreter finds [X] again, because the first body is still at the
    front of the buffer: the fetch returns [false] and publishes nothing. *)
Theorem error_message_dooms_retry (E : Env) (fuel : nat)
  (_lat _lon _radius_nm : float) (w : World) :
  let rq0 := first_request E w _lat _lon _radius_nm in
  let t0 := curl_transfer E 0 rq0 in
  let rq1 := first_request E w _lat _lon MAX_WEATHER_RADIUS_NM in
  let t1 := curl_transfer E 1 rq1 in
  let X := fst (GetXMLValue (received t0) "<error>" 0) in
  2 <= fuel ->
  curl_easy_init_ok E = true ->
  cc t0 = CURLE_OK ->
  responseCode t0 = HTTP_OK ->
  X <> "" ->
  (_radius_nm <? MAX_WEATHER_RADIUS_NM)%float = true ->
  cc t1 = CURLE_OK ->
  responseCode t1 = HTTP_OK ->
  WeatherFetch E fuel _lat _lon _radius_nm w
  = (Ok false,
     extend w
       [EvSetUrl (weather_url E _radius_nm _lon _lat);
        EvPerform rq0;
        EvProcess (received t0);
        EvLog logERR (ERR_WEATHER_ERROR X);
        EvLog logWARN (WARN_NO_WEATHER _radius_nm);
        EvSetUrl (weather_url E MAX_WEATHER_RADIUS_NM _lon _lat);
        EvPerform rq1;
        EvProcess (received t0 ++ received t1);
        EvLog logERR (ERR_WEATHER_ERROR X);
        EvLog logWARN (WARN_NO_WEATHER MAX_WEATHER_RADIUS_NM)]).
Proof.
  intros rq0 t0 rq1 t1 X Hfuel Hinit Hcc Hrc HX Hlt Hcc1 Hrc1.
  rewrite WeatherFetch_run by exact Hinit.
  destruct fuel as [|[|fuel]]; try lia.
  cbn [WeatherFetch_loop]. unfold bind.
  pose proof (first_pass_no_weather E _lat _lon _radius_nm w _ Hcc Hrc
                (error_returns_false E _ HX)) as Hpass.
  fold rq0 t0 X in Hpass. rewrite Hpass, Hlt. clear Hpass.
  cbn [app].
  pose proof (pass_direct_200 E _lat _lon
                (mkLocals MAX_WEATHER_RADIUS_NM (received t0) (errtxt t0)
                   (mkCURL false 1 (responseCode t0)))
                (mkFrame (extend w
                   [EvSetUrl (weather_url E _radius_nm _lon _lat);
                    EvPerform rq0; EvProcess (received t0);
                    EvLog logERR (ERR_WEATHER_ERROR X);
                    EvLog logWARN (WARN_NO_WEATHER _radius_nm)]) false)
                Hcc1 Hrc1) as Hpass.
  cbn [radius_nm readBuf pCurl sslNoRevoke transfersDone globals bRet
       extend netwTimeout] in Hpass.
  change (mkRequest (weather_url E MAX_WEATHER_RADIUS_NM _lon _lat)
            (netwTimeout w) false) with rq1 in Hpass.
  fold t1 in Hpass.
  assert (HX1 : fst (GetXMLValue (received t0 ++ received t1) "<error>" 0) = X)
    by exact (error_value_app _ _ HX).
  assert (Hne1 : fst (GetXMLValue (received t0 ++ received t1) "<error>" 0)
                 <> "") by (rewrite HX1; exact HX).
  pose proof (error_returns_false E _ Hne1) as Hrun. rewrite HX1 in Hrun.
  rewrite Hrun in Hpass. rewrite max_radius_not_below_itself in Hpass.
  rewrite Hpass. cbn [globals bRet]. unfold extend. cbn [trace netwTimeout weather].
  rewrite <- !app_assoc. reflexivity.
Qed.

Lemma error_message_dooms_retry_witness :
  let E := Sample.env [Sample.http_200 "<error>Bad query</error>";
                       Sample.http_200 "<altim_in_hg>29.92</altim_in_hg>"] in
  fst (WeatherFetch E 2 51%float 7%float 50%float Sample.world0) = Ok false /\
  published (trace (snd (WeatherFetch E 2 51%float 7%float 50%float
                           Sample.world0))) = [].
Proof.
  cbv zeta.
  rewrite (error_message_dooms_retry
             (Sample.env [Sample.http_200 "<error>Bad query</error>";
                          Sample.http_200 "<altim_in_hg>29.92</altim_in_hg>"])
             2 51%float 7%float 50%float Sample.world0).
  - split; reflexivity.
  - lia.
  - reflexivity.
  - reflexivity.
  - reflexivity.
  - vm_compute. discriminate.
  - reflexivity.
  - reflexivity.
  - reflexivity.
Defined.

(** X6 -- an HTTP status other than 200 ends the fetch: if the first
    transfer succeeds but the server answers with any status other than 200,
    the status is logged, the body is never handed to the interpreter, no
    widening retry is made whatever the radius, nothing is published and the
    result is [false]. *)
Theorem http_error_ends_fetch (E : Env) (fuel : nat)
  (_lat _lon _radius_nm : float) (w : World) :
  let rq0 := first_request E w _lat _lon _radius_nm in
  let t0 := curl_transfer E 0 rq0 in
  1 <= fuel ->
  curl_easy_init_ok E = true ->
  cc t0 = CURLE_OK ->
  responseCode t0 <> HTTP_OK ->
  WeatherFetch E fuel _lat _lon _radius_nm w
  = (Ok false,
     extend w [EvSetUrl (weather_url E _radius_nm _lon _lat);
               EvPerform rq0;
               EvLog logERR (ERR_WEATHER_REQU (responseCode t0))]).
Proof.
  intros rq0 t0 Hfuel Hinit Hcc Hrc.
  rewrite WeatherFetch_run by exact Hinit.
  destruct fuel as [|fuel]; [lia|]. cbn [WeatherFetch_loop]. unfold bind at 1.
  unfold WeatherFetch_pass, bind, glob, lift, GetNetwTimeout, emit.
  cbn [radius_nm readBuf pCurl globals bRet ret fst snd].
  rewrite perform_direct by exact Hcc.
  cbn [sslNoRevoke transfersDone lastResponseCode netwTimeout extend].
  change (mkRequest (weather_url E _radius_nm _lon _lat) (netwTimeout w) false)
    with rq0.
  fold t0. rewrite Z.eqb_refl.
  apply Z.eqb_neq in Hrc. rewrite Hrc.
  unfold LOG_MSG, emit, ret, extend. simpl.
  rewrite <- !app_assoc. reflexivity.
Qed.

Lemma http_error_ends_fetch_witness :
  let E := Sample.env [mkTransfer CURLE_OK ""
                         ["<altim_in_hg>29.92</altim_in_hg>"] 404%Z] in
  WeatherFetch E 1 51%float 7%float 50%float Sample.world0
  = (Ok false,
     extend Sample.world0
       [EvSetUrl (weather_url E 50%float 7%float 51%float);
        EvPerform (first_request E Sample.world0 51%float 7%float 50%float);
        EvLog logERR (ERR_WEATHER_REQU 404%Z)]).
Proof.
  cbv zeta.
  apply (http_error_ends_fetch
           (Sample.env [mkTransfer CURLE_OK ""
                          ["<altim_in_hg>29.92</altim_in_hg>"] 404%Z])
           1 51%float 7%float 50%float Sample.world0).
  - lia.
  - reflexivity.
  - reflexivity.
  - vm_compute. discriminate.
Defined.

(** X7 -- a failed transfer ends the fetch: if the first transfer fails
    and the error is not one of the revocation check, there is no second
    transfer; the error is logged with curl's code and text, whatever data
    arrived is not interpreted, and the result is [false]. *)
Theorem transport_error_ends_fetch (E : Env) (fuel : nat)
  (_lat _lon _radius_nm : float) (w : World) :
  let rq0 := first_request E w _lat _lon _radius_nm in
  let t0 := curl_transfer E 0 rq0 in
  1 <= fuel ->
  curl_easy_init_ok E = true ->
  cc t0 <> CURLE_OK ->
  IsRevocationError E (errtxt t0) = false ->
  WeatherFetch E fuel _lat _lon _radius_nm w
  = (Ok false,
     extend w [EvSetUrl (weather_url E _radius_nm _lon _lat);
               EvPerform rq0;
               EvLog logERR (ERR_CURL_NOVERCHECK (cc t0) (errtxt t0))]).
Proof.
  intros rq0 t0 Hfuel Hinit Hcc Hrev.
  rewrite WeatherFetch_run by exact Hinit.
  destruct fuel as [|fuel]; [lia|]. cbn [WeatherFetch_loop]. unfold bind at 1.
  unfold WeatherFetch_pass, bind, glob, lift, GetNetwTimeout, emit.
  cbn [radius_nm readBuf pCurl globals bRet ret fst snd].
  unfold WeatherFetch_perform, bind.
  rewrite curl_easy_perform_run.
  cbn [sslNoRevoke transfersDone lastResponseCode netwTimeout extend].
  change (mkRequest (weather_url E _radius_nm _lon _lat) (netwTimeout w) false)
    with rq0.
  fold t0. apply Z.eqb_neq in Hcc. rewrite Hcc, Hrev.
  unfold LOG_MSG, emit, ret, extend. simpl. rewrite Hcc. simpl. rewrite Hcc.
  simpl. rewrite <- !app_assoc. reflexivity.
Qed.

Lemma transport_error_ends_fetch_witness :
  let E := Sample.env [] in
  WeatherFetch E 1 51%float 7%float 50%float Sample.world0
  = (Ok false,
     extend Sample.world0
       [EvSetUrl (weather_url E 50%float 7%float 51%float);
        EvPerform (first_request E Sample.world0 51%float 7%float 50%float);
        EvLog logERR (ERR_CURL_NOVERCHECK 7%Z "Couldn't connect to server")]).
Proof.
  cbv zeta.
  apply (transport_error_ends_fetch (Sample.env [])
           1 51%float 7%float 50%float Sample.world0).
  - lia.
  - reflexivity.
  - vm_compute. discriminate.
  - reflexivity.
Defined.

(** X8 -- the revocation mitigation is tried once: if the first transfer
    fails on the revocation check, the same URL is transferred again with
    the check switched off; if that fails as well -- be it on the revocation
    check again -- there is no third transfer, the second error is logged
    and the result is [false]. *)
Theorem revocation_mitigation_once (E : Env) (fuel : nat)
  (_lat _lon _radius_nm : float) (w : World) :
  let url := weather_url E _radius_nm _lon _lat in
  let rq0 := mkRequest url (netwTimeout w) false in
  let t0 := curl_transfer E 0 rq0 in
  let rq1 := mkRequest url (netwTimeout w) true in
  let t1 := curl_transfer E 1 rq1 in
  1 <= fuel ->
  curl_easy_init_ok E = true ->
  cc t0 <> CURLE_OK ->
  IsRevocationError E (errtxt t0) = true ->
  cc t1 <> CURLE_OK ->
  WeatherFetch E fuel _lat _lon _radius_nm w
  = (Ok false,
     extend w [EvSetUrl url;
               EvPerform rq0;
               EvLog logWARN ERR_CURL_DISABLE_REV_QU;
               EvPerform rq1;
               EvLog logERR (ERR_CURL_NOVERCHECK (cc t1) (errtxt t1))]).
Proof.
  intros url rq0 t0 rq1 t1 Hfuel Hinit Hcc Hrev Hcc1.
  rewrite WeatherFetch_run by exact Hinit.
  destruct fuel as [|fuel]; [lia|]. cbn [WeatherFetch_loop]. unfold bind at 1.
  unfold WeatherFetch_pass, bind, glob, lift, GetNetwTimeout, emit.
  cbn [radius_nm readBuf pCurl globals bRet ret fst snd].
  unfold WeatherFetch_perform, bind.
  rewrite curl_easy_perform_run.
  cbn [sslNoRevoke transfersDone lastResponseCode netwTimeout extend].
  fold url rq0 t0. apply Z.eqb_neq in Hcc, Hcc1. rewrite Hcc, Hrev.
  cbn [negb]. unfold LOG_MSG, emit. rewrite curl_easy_perform_run.
  cbn [sslNoRevoke transfersDone lastResponseCode netwTimeout extend].
  fold rq1 t1. rewrite Hcc1.
  unfold ret, extend. simpl. rewrite Hcc1. simpl.
  rewrite <- !app_assoc. reflexivity.
Qed.

Lemma revocation_mitigation_once_witness :
  let E := Sample.env
             [mkTransfer 35%Z "schannel: revocation check failed" [] 0%Z;
              mkTransfer 35%Z "schannel: revocation check failed" [] 0%Z;
              Sample.http_200 "<altim_in_hg>29.92</altim_in_hg>"] in
  fst (WeatherFetch E 2 51%float 7%float 50%float Sample.world0) = Ok false /\
  List.length (performed (trace (snd
     (WeatherFetch E 2 51%float 7%float 50%float Sample.world0)))) = 2.
Proof.
  cbv zeta.
  rewrite (revocation_mitigation_once
             (Sample.env
                [mkTransfer 35%Z "schannel: revocation check failed" [] 0%Z;
                 mkTransfer 35%Z "schannel: revocation check failed" [] 0%Z;
                 Sample.http_200 "<altim_in_hg>29.92</altim_in_hg>"])
             2 51%float 7%float 50%float Sample.world0).
  - split; reflexivity.
  - lia.
  - reflexivity.
  - vm_compute. discriminate.
  - reflexivity.
  - vm_compute. discriminate.
Defined.

(** X9 -- after a successful mitigation the fetch goes on as usual: if the
    first transfer fails on the revocation check and the repetition with the
    check switched off succeeds with HTTP 200, the interpreter is handed
    what the failed transfer had delivered followed by the answer to the
    repetition; weather found there is published and the result is
    [true]. *)
Theorem revocation_mitigation_recovers (E : Env) (fuel : nat)
  (_lat _lon _radius_nm : float) (w : World) (wx : Weather) :
  let url := weather_url E _radius_nm _lon _lat in
  let rq0 := mkRequest url (netwTimeout w) false in
  let t0 := curl_transfer E 0 rq0 in
  let rq1 := mkRequest url (netwTimeout w) true in
  let t1 := curl_transfer E 1 rq1 in
  1 <= fuel ->
  curl_easy_init_ok E = true ->
  cc t0 <> CURLE_OK ->
  IsRevocationError E (errtxt t0) = true ->
  cc t1 = CURLE_OK ->
  responseCode t1 = HTTP_OK ->
  classifies E (received t0 ++ received t1) (Success wx) ->
  WeatherFetch E fuel _lat _lon _radius_nm w
  = (Ok true,
     publish wx
       (extend w [EvSetUrl url;
                  EvPerform rq0;
                  EvLog logWARN ERR_CURL_DISABLE_REV_QU;
                  EvPerform rq1;
                  EvProcess (received t0 ++ received t1)])).
Proof.
  intros url rq0 t0 rq1 t1 Hfuel Hinit Hcc Hrev Hcc1 Hrc1 Hcl.
  rewrite WeatherFetch_run by exact Hinit.
  destruct fuel as [|fuel]; [lia|]. cbn [WeatherFetch_loop]. unfold bind at 1.
  unfold WeatherFetch_pass, bind, glob, lift, GetNetwTimeout, emit.
  cbn [radius_nm readBuf pCurl globals bRet ret fst snd].
  unfold WeatherFetch_perform, bind.
  rewrite curl_easy_perform_run.
  cbn [sslNoRevoke transfersDone lastResponseCode netwTimeout extend].
  fold url rq0 t0. apply Z.eqb_neq in Hcc. rewrite Hcc, Hrev.
  cbn [negb]. unfold LOG_MSG, emit. rewrite curl_easy_perform_run.
  cbn [sslNoRevoke transfersDone lastResponseCode netwTimeout extend].
  fold rq1 t1. rewrite Hcc1.
  unfold ret. cbn [negb Z.eqb CURLE_OK lastResponseCode].
  rewrite ?Hcc1, ?Hrc1. cbn [negb Z.eqb HTTP_OK CURLE_OK Pos.eqb append].
  rewrite (Hcl _). unfold set_bRet, publish, extend. simpl.
  rewrite <- !app_assoc. reflexivity.
Qed.

Lemma revocation_mitigation_recovers_witness :
  let E := Sample.env
             [mkTransfer 35%Z "schannel: revocation check failed"
                ["<partial>"] 0%Z;
              Sample.http_200 "<altim_in_hg>29.92</altim_in_hg>"] in
  fst (WeatherFetch E 1 51%float 7%float 50%float Sample.world0) = Ok true /\
  processed (trace (snd (WeatherFetch E 1 51%float 7%float 50%float
                           Sample.world0)))
  = ["<partial>" ++ "<altim_in_hg>29.92</altim_in_hg>"].
Proof.
  cbv zeta.
  rewrite (revocation_mitigation_recovers
             (Sample.env
                [mkTransfer 35%Z "schannel: revocation check failed"
                   ["<partial>"] 0%Z;
                 Sample.http_200 "<altim_in_hg>29.92</altim_in_hg>"])
             1 51%float 7%float 50%float Sample.world0
             (mkWeather 1013.2078857421875%float NAN NAN "" "")).
  - split; reflexivity.
  - lia.
  - reflexivity.
  - vm_compute. discriminate.
  - reflexivity.
  - reflexivity.
  - reflexivity.
  - intros w. vm_compute. reflexivity.
Defined.

(** ** More about the interpreter *)

(** X10 -- no partial weather: a body with a fine pressure value whose
    latitude, or whose longitude, is there but is no number makes the
    interpreter throw from [std::stof]; the pressure already converted is
    dropped with it: nothing is published and nothing logged by the
    interpreter. *)
Theorem bad_coordinate_discards_pressure (E : Env) (body : string)
  (f : float) (e : exception) :
  let cursor := snd (GetXMLValue body "<error>" 0) in
  fst (GetXMLValue body "<error>" 0) = "" ->
  fst (GetXMLValue body "<altim_in_hg>" cursor) <> "" ->
  stof E (fst (GetXMLValue body "<altim_in_hg>" cursor)) = inr f ->
  (latitude_text body <> "" /\ stof E (latitude_text body) = inl e) \/
  (optional_numeric E (latitude_text body) /\
   longitude_text body <> "" /\ stof E (longitude_text body) = inl e) ->
  classifies E body (Raised e) /\
  forall w,
    weather (snd (WeatherProcessResponse E body w)) = weather w /\
    published (trace (snd (WeatherProcessResponse E body w)))
    = published (trace w).
Proof.
  intros cursor He Hne Hf Hbad.
  assert (Hc : classifies E body (Raised e)).
  { intros w. rewrite WeatherProcessResponse_unfold.
    subst cursor. destruct (GetXMLValue body "<error>" 0) as [val pos].
    cbn [fst snd] in *. subst val. cbn [empty].
    unfold WeatherProcessResponse_pressure, optional_numeric, numeric,
      latitude_text, longitude_text in *.
    destruct (GetXMLValue body "<altim_in_hg>" pos) as [v q].
    cbn [fst] in *. apply empty_false in Hne. rewrite Hne. cbn [negb].
    unfold bind, call. rewrite Hf. cbn [ret].
    destruct (GetXMLValue body "<raw_text>" 0) as [metar p1].
    destruct (GetXMLValue body "<station_id>" p1) as [station p2].
    destruct (GetXMLValue body "<latitude>" p2) as [latv p3].
    destruct (GetXMLValue body "<longitude>" p3) as [lonv p4].
    cbn [fst] in Hbad.
    destruct Hbad as [[Hl Hs]|(Hlat & Hl & Hs)].
    - apply empty_false in Hl. rewrite Hl, Hs. reflexivity.
    - destruct (empty latv) eqn:Hel; cbn [negb ret].
      + apply empty_false in Hl. rewrite Hl, Hs. reflexivity.
      + apply empty_false in Hel. destruct (Hlat Hel) as [la ->].
        cbn [ret]. apply empty_false in Hl. rewrite Hl, Hs. reflexivity. }
  split; [exact Hc|]. intros w. rewrite (Hc w). cbn [snd extend weather trace].
  split; [reflexivity|]. rewrite published_app. apply app_nil_r.
Qed.

Lemma bad_coordinate_discards_pressure_witness :
  classifies (Sample.env [])
    "<latitude>north</latitude><altim_in_hg>29.92</altim_in_hg>"
    (Raised (StdException "stof")).
Proof.
  refine (proj1 (bad_coordinate_discards_pressure (Sample.env [])
            "<latitude>north</latitude><altim_in_hg>29.92</altim_in_hg>"
            29.920000076293945%float (StdException "stof") _ _ _ _)).
  - reflexivity.
  - vm_compute. discriminate.
  - reflexivity.
  - left. split; [vm_compute; discriminate | reflexivity].
Defined.

(** ** More about the coordinator *)

(** X11 -- the result of [WeatherUpdate] tells whether a fetch was started:
    for every position, radius and state of the process, the globals are
    left alone; the result is [true] exactly when the latitude is not at or
    above 80 and no earlier fetch is still under way; on [true] exactly one
    worker has been started, with the position narrowed to [float] and the
    radius as given, and its handle replaces the stored one; on [false]
    nothing at all has changed. *)
Theorem WeatherUpdate_starts_iff_true (E : Env) (pos : positionTy)
  (radius_nm : float) (p : Process) :
  let b := fst (WeatherUpdate E pos radius_nm p) in
  let p' := snd (WeatherUpdate E pos radius_nm p) in
  let args := (to_float E (lat pos), to_float E (lon pos), radius_nm) in
  world p' = world p /\
  (b = true <->
   (80.0 <=? lat pos)%float = false /\
   forall f, futWeather p = Some f -> futStatus f = fs_ready) /\
  (b = true ->
   workers p' = (workers p ++ [args])%list /\
   futWeather p' = Some (mkFuture args fs_timeout)) /\
  (b = false -> p' = p).
Proof.
  unfold WeatherUpdate.
  destruct (80.0 <=? lat pos)%float.
  { cbn. split; [reflexivity|]. split; [|split; [discriminate|reflexivity]].
    split; [discriminate | intros [H _]; discriminate]. }
  destruct (futWeather p) as [f|] eqn:Hfut.
  - destruct (futStatus f) eqn:Hst; cbn.
    + split; [reflexivity|]. split; [|split; [auto|discriminate]].
      split; [|reflexivity]. intros _. split; [reflexivity|].
      intros f' Hf'. injection Hf' as <-. exact Hst.
    + split; [reflexivity|]. split; [|split; [discriminate|reflexivity]].
      split; [discriminate|]. intros [_ H].
      specialize (H f eq_refl). congruence.
    + split; [reflexivity|]. split; [|split; [discriminate|reflexivity]].
      split; [discriminate|]. intros [_ H].
      specialize (H f eq_refl). congruence.
  - cbn. split; [reflexivity|]. split; [|split; [auto|discriminate]].
    split; [|reflexivity]. intros _. split; [reflexivity|]. discriminate.
Qed.



(** X13 -- the latitude gate lets NaN through: a latitude that is not a
    number compares false with 80, so with no fetch under way a worker is
    started for it. *)
Theorem WeatherUpdate_nan_latitude (E : Env) (pos : positionTy)
  (radius_nm : float) (p : Process) :
  PrimFloat.is_nan (lat pos) = true ->
  futWeather p = None ->
  WeatherUpdate E pos radius_nm p
  = (true,
     mkProcess (world p)
       (Some (mkFuture (to_float E (lat pos), to_float E (lon pos), radius_nm)
                fs_timeout))
       (workers p ++ [(to_float E (lat pos), to_float E (lon pos), radius_nm)])).
Proof.
  intros Hnan Hfut. unfold WeatherUpdate.
  assert (Hgate : (80.0 <=? lat pos)%float = false).
  { rewrite FloatAxioms.leb_spec. unfold Prim2SF at 2. rewrite Hnan.
    destruct (Prim2SF 80.0); reflexivity. }
  rewrite Hgate, Hfut. reflexivity.
Qed.

Lemma WeatherUpdate_nan_latitude_witness :
  fst (WeatherUpdate (Sample.env []) (mkPos NAN 7%float) 50%float
         (mkProcess Sample.world0 None [])) = true.
Proof.
  rewrite (WeatherUpdate_nan_latitude (Sample.env []) (mkPos NAN 7%float)
             50%float (mkProcess Sample.world0 None [])).
  - reflexivity.
  - reflexivity.
  - reflexivity.
Defined.

(** ** The requests of a fetch *)

Section RequestFacts.

Context (E : Env).

Lemma perform_requests (h : CURL) (url : Url) (tmo : Z) (buf : string)
  (w : World) :
  exists c h' buf' err evs,
    WeatherFetch_perform E h url tmo buf w
      = (Ok (c, h', buf', err), extend w evs) /\
    requests_of url tmo (sslNoRevoke h) (performed evs) (sslNoRevoke h').
Proof.
  unfold WeatherFetch_perform, bind.
  rewrite curl_easy_perform_run.
  set (t1 := curl_transfer E (transfersDone h)
               (mkRequest url tmo (sslNoRevoke h))).
  destruct (cc t1 =? CURLE_OK)%Z eqn:Hcc1; cbn [negb].
  { unfold ret. do 5 eexists. split; [reflexivity|]. left. split; reflexivity. }
  destruct (IsRevocationError E (errtxt t1)) eqn:Hrev.
  - unfold LOG_MSG, emit. rewrite curl_easy_perform_run.
    cbn [sslNoRevoke transfersDone].
    set (t2 := curl_transfer E (S (transfersDone h)) (mkRequest url tmo true)).
    destruct (cc t2 =? CURLE_OK)%Z eqn:Hcc2; cbn [negb]; unfold ret;
      rewrite ?extend_extend;
      (do 5 eexists; split; [reflexivity|]);
      right; split; reflexivity.
  - unfold ret. rewrite Hcc1. cbn [negb].
    unfold LOG_MSG, emit. rewrite extend_extend.
    do 5 eexists. split; [reflexivity|]. left. split; reflexivity.
Qed.

Lemma pass_requests (_lat _lon : float) (l : Locals) (fr : Frame) :
  exists r fr' evs b1,
    WeatherFetch_pass E _lat _lon l fr = (r, fr') /\
    trace (globals fr') = (trace (globals fr) ++ evs)%list /\
    netwTimeout (globals fr') = netwTimeout (globals fr) /\
    requests_of (weather_url E (radius_nm l) _lon _lat)
      (netwTimeout (globals fr)) (sslNoRevoke (pCurl l)) (performed evs) b1 /\
    match r with
    | Ok (bRepeat, l') =>
        sslNoRevoke (pCurl l') = b1 /\
        (bRepeat = true ->
         (radius_nm l <? MAX_WEATHER_RADIUS_NM)%float = true /\
         radius_nm l' = MAX_WEATHER_RADIUS_NM)
    | Throw _ => True
    | OutOfFuel => False
    end.
Proof.
  unfold WeatherFetch_pass, bind, glob, lift, GetNetwTimeout, emit. simpl.
  set (url := weather_url E (radius_nm l) _lon _lat).
  destruct (perform_requests (pCurl l) url (netwTimeout (globals fr))
              (readBuf l) (extend (globals fr) [EvSetUrl url]))
    as (c & h' & buf' & err & evs & Heq & Hreq).
  rewrite Heq. simpl. rewrite extend_extend. clear Heq.
  assert (Hreq1 : requests_of url (netwTimeout (globals fr))
                    (sslNoRevoke (pCurl l))
                    (performed ([EvSetUrl url] ++ evs)) (sslNoRevoke h'))
    by exact Hreq.
  remember ([EvSetUrl url] ++ evs)%list as evs1 eqn:Hevs1.
  clear Hevs1 Hreq evs.
  destruct (c =? CURLE_OK)%Z.
  2:{ unfold ret. exists (Ok (false, mkLocals (radius_nm l) buf' err h')).
      eexists _, evs1, (sslNoRevoke h').
      split; [reflexivity|]. cbn [globals extend trace netwTimeout pCurl].
      split; [reflexivity|]. split; [reflexivity|]. split; [exact Hreq1|].
      split; [reflexivity|discriminate]. }
  destruct (lastResponseCode h' =? HTTP_OK)%Z; cbn [negb].
  2:{ unfold ret. exists (Ok (false, mkLocals (radius_nm l) buf' err h')).
      eexists _, (evs1
                  ++ [EvLog logERR (ERR_WEATHER_REQU (lastResponseCode h'))])%list,
        (sslNoRevoke h').
      split; [reflexivity|].
      cbn [globals extend trace netwTimeout pCurl]. rewrite <- !app_assoc.
      split; [reflexivity|]. split; [reflexivity|].
      split; [|split; [reflexivity|discriminate]].
      rewrite !performed_app. cbn. rewrite app_nil_r. exact Hreq1. }
  cbn [globals bRet].
  destruct (WeatherProcessResponse_cases E buf' (extend (globals fr) evs1))
    as [[wx H]|[(evs2 & H & _ & _ & Hf2 & _)|[e H]]]; rewrite H.
  - unfold ret. cbn [negb globals].
    exists (Ok (false, mkLocals (radius_nm l) buf' err h')).
    eexists _, (evs1 ++ [EvProcess buf'; EvSetWeather wx])%list, (sslNoRevoke h').
    split; [reflexivity|].
    cbn [globals extend publish trace netwTimeout pCurl]. rewrite <- !app_assoc.
    split; [reflexivity|]. split; [reflexivity|].
    split; [|split; [reflexivity|discriminate]].
    rewrite !performed_app. cbn. rewrite app_nil_r. exact Hreq1.
  - unfold ret. cbn [negb globals].
    destruct (radius_nm l <? MAX_WEATHER_RADIUS_NM)%float eqn:Hr;
      [exists (Ok (true, mkLocals MAX_WEATHER_RADIUS_NM buf' err h'))
      |exists (Ok (false, mkLocals (radius_nm l) buf' err h'))];
      (eexists _, (evs1 ++ (EvProcess buf' :: evs2)
                   ++ [EvLog logWARN (WARN_NO_WEATHER (radius_nm l))])%list,
         (sslNoRevoke h'));
      (split; [reflexivity|]);
      cbn [globals extend trace netwTimeout pCurl radius_nm];
      rewrite <- !app_assoc;
      (split; [reflexivity|]); (split; [reflexivity|]);
      (split; [|split; [reflexivity|try discriminate; auto]]);
      rewrite !performed_app;
      change (performed (EvProcess buf' :: evs2)) with (performed evs2);
      rewrite Hf2; cbn; rewrite !app_nil_r; exact Hreq1.
  - exists (Throw e).
    eexists _, (evs1 ++ [EvProcess buf'])%list, (sslNoRevoke h').
    split; [reflexivity|].
    cbn [globals extend trace netwTimeout pCurl]. rewrite <- !app_assoc.
    split; [reflexivity|]. split; [reflexivity|].
    split; [|exact I].
    rewrite !performed_app. cbn. rewrite app_nil_r. exact Hreq1.
Qed.

Lemma loop_requests (fuel : nat) (_lat _lon : float) (l : Locals)
  (fr : Frame) :
  2 <= fuel ->
  exists r fr' evs,
    WeatherFetch_loop E fuel _lat _lon l fr = (r, fr') /\
    r <> OutOfFuel /\
    trace (globals fr') = (trace (globals fr) ++ evs)%list /\
    Forall (fun rq => rqTimeout rq = netwTimeout (globals fr)) (performed evs) /\
    hd_error (map rqNoRevoke (performed evs)) = Some (sslNoRevoke (pCurl l)) /\
    (mitigation_kept (map rqNoRevoke (performed evs)) = true).
Proof.
  intros Hfuel. destruct fuel as [|[|fuel]]; try lia.
  cbn [WeatherFetch_loop]. unfold bind at 1.
  destruct (pass_requests _lat _lon l fr)
    as (r1 & fr1 & evs1 & b1 & Heq1 & Htr1 & Htm1 & Hreq1 & Hr1).
  rewrite Heq1.
  assert (Hone : Forall (fun rq => rqTimeout rq = netwTimeout (globals fr))
                   (performed evs1) /\
                 hd_error (map rqNoRevoke (performed evs1))
                 = Some (sslNoRevoke (pCurl l)) /\
                 mitigation_kept (map rqNoRevoke (performed evs1)) = true).
  { destruct Hreq1 as [[-> _]|[-> _]]; cbn;
      (split; [repeat constructor|]); (split; [reflexivity|]);
      destruct (sslNoRevoke (pCurl l)); reflexivity. }
  destruct r1 as [[[|] l1]|e|].
  - destruct Hr1 as (Hb1 & Hmax). destruct (Hmax eq_refl) as (_ & Hrad).
    unfold bind.
    destruct (pass_requests _lat _lon l1 fr1)
      as (r2 & fr2 & evs2 & b2 & Heq2 & Htr2 & Htm2 & Hreq2 & Hr2).
    rewrite Heq2. rewrite Hrad, Htm1, Hb1 in Hreq2.
    assert (Htwo : Forall (fun rq => rqTimeout rq = netwTimeout (globals fr))
                     (performed (evs1 ++ evs2)) /\
                   hd_error (map rqNoRevoke (performed (evs1 ++ evs2)))
                   = Some (sslNoRevoke (pCurl l)) /\
                   mitigation_kept (map rqNoRevoke (performed (evs1 ++ evs2)))
                   = true).
    { rewrite performed_app.
      destruct Hreq1 as [[-> ->]|[-> ->]], Hreq2 as [[-> _]|[-> _]]; cbn;
        (split; [repeat constructor|]); (split; [reflexivity|]);
        destruct (sslNoRevoke (pCurl l)); reflexivity. }
    destruct r2 as [[[|] l2]|e|].
    + destruct Hr2 as (_ & Hmax2). destruct (Hmax2 eq_refl) as (Hlt & _).
      rewrite Hrad in Hlt. discriminate.
    + unfold ret. exists (Ok l2), fr2, (evs1 ++ evs2)%list.
      split; [reflexivity|]. split; [discriminate|].
      split; [rewrite Htr2, Htr1; now rewrite app_assoc|]. exact Htwo.
    + exists (Throw e), fr2, (evs1 ++ evs2)%list.
      split; [reflexivity|]. split; [discriminate|].
      split; [rewrite Htr2, Htr1; now rewrite app_assoc|]. exact Htwo.
    + contradiction.
  - unfold ret. exists (Ok l1), fr1, evs1.
    split; [reflexivity|]. split; [discriminate|]. split; [exact Htr1|].
    exact Hone.
  - exists (Throw e), fr1, evs1.
    split; [reflexivity|]. split; [discriminate|]. split; [exact Htr1|].
    exact Hone.
  - contradiction.
Qed.

End RequestFacts.

(** X14 -- the requests of a fetch: every fetch returns, and of the
    transfers it has performed each carries the network timeout configured
    when the fetch began, the first is made with revocation checks on, and
    once a transfer has been made with the checks off no later one of the
    fetch -- the widening retry included -- is made with them on again. *)
Theorem mitigation_never_undone (E : Env) (fuel : nat)
  (_lat _lon _radius_nm : float) (w : World) :
  2 <= fuel ->
  exists b w' evs,
    WeatherFetch E fuel _lat _lon _radius_nm w = (Ok b, w') /\
    trace w' = (trace w ++ evs)%list /\
    Forall (fun rq => rqTimeout rq = netwTimeout w) (performed evs) /\
    hd_error (map rqNoRevoke (performed evs)) <> Some true /\
    mitigation_kept (map rqNoRevoke (performed evs)) = true.
Proof.
  intros Hfuel.
  destruct (curl_easy_init_ok E) eqn:Hinit.
  2:{ unfold WeatherFetch, WeatherFetch_try. rewrite Hinit.
      unfold bind, glob, lift, LOG_MSG, emit, ret. simpl.
      eexists _, _, [_]. split; [reflexivity|]. split; [reflexivity|].
      simpl. split; [constructor|]. split; [discriminate|reflexivity]. }
  rewrite WeatherFetch_run by exact Hinit.
  destruct (loop_requests E fuel _lat _lon
              (mkLocals _radius_nm "" "" (mkCURL false 0 0%Z))
              (mkFrame w false) Hfuel)
    as (r & fr' & evs & Heq & Hr & Htr & Htm & Hhd & Hkept).
  rewrite Heq. cbn [globals pCurl sslNoRevoke] in Htr, Htm, Hhd.
  destruct r as [l'|e|]; [| |contradiction].
  - exists (bRet fr'), (globals fr'), evs.
    split; [reflexivity|]. split; [exact Htr|]. split; [exact Htm|].
    split; [rewrite Hhd; discriminate | exact Hkept].
  - exists (bRet fr'), (extend (globals fr') [EvLog logERR (exception_msg e)]),
      (evs ++ [EvLog logERR (exception_msg e)])%list.
    split; [reflexivity|]. cbn [extend trace].
    split; [rewrite Htr; now rewrite app_assoc|].
    rewrite performed_app. cbn. rewrite app_nil_r.
    split; [exact Htm|].
    split; [rewrite Hhd; discriminate | exact Hkept].
Qed.

Lemma mitigation_never_undone_witness :
  let E := Sample.env
             [mkTransfer 35%Z "schannel: revocation check failed" [] 0%Z;
              Sample.http_200 "<errors/><data/>";
              Sample.http_200 "<altim_in_hg>29.92</altim_in_hg>"] in
  exists b w' evs,
    WeatherFetch E 2 51%float 7%float 50%float Sample.world0 = (Ok b, w') /\
    trace w' = (trace Sample.world0 ++ evs)%list /\
    Forall (fun rq => rqTimeout rq = netwTimeout Sample.world0)
      (performed evs) /\
    hd_error (map rqNoRevoke (performed evs)) <> Some true /\
    mitigation_kept (map rqNoRevoke (performed evs)) = true.
Proof.
  cbv zeta.
  apply (mitigation_never_undone
           (Sample.env
              [mkTransfer 35%Z "schannel: revocation check failed" [] 0%Z;
               Sample.http_200 "<errors/><data/>";
               Sample.http_200 "<altim_in_hg>29.92</altim_in_hg>"])
           2 51%float 7%float 50%float Sample.world0).
  lia.
Defined.

(** The revocation setting of the three transfers of a fetch in which the
    mitigation comes before the widening retry. *)
Example mitigation_kept_for_retry :
  let E := Sample.env
             [mkTransfer 35%Z "schannel: revocation check failed" [] 0%Z;
              Sample.http_200 "<errors/><data/>";
              Sample.http_200 "<altim_in_hg>29.92</altim_in_hg>"] in
  map rqNoRevoke
    (performed (trace (snd (WeatherFetch E 2 51%float 7%float 50%float
                              Sample.world0))))
  = [false; true; true].
Proof. vm_compute. reflexivity. Qed.

(** ** More about the worker: the retry that finds weather *)

(** X29 -- the widening retry can succeed: if below the maximum radius the
    first HTTP-200 body holds neither an error message nor a pressure, and
    the answer to the retry at the maximum radius, read behind the first
    body, holds weather, then that weather is published -- once -- and the
    fetch returns [true]: the result is that of the last pass. *)
Theorem widening_retry_finds_weather (E : Env) (fuel : nat)
  (_lat _lon _radius_nm : float) (w : World) (wx : Weather) :
  let rq0 := first_request E w _lat _lon _radius_nm in
  let t0 := curl_transfer E 0 rq0 in
  let rq1 := first_request E w _lat _lon MAX_WEATHER_RADIUS_NM in
  let t1 := curl_transfer E 1 rq1 in
  2 <= fuel ->
  curl_easy_init_ok E = true ->
  cc t0 = CURLE_OK ->
  responseCode t0 = HTTP_OK ->
  classifies E (received t0) NotFound ->
  (_radius_nm <? MAX_WEATHER_RADIUS_NM)%float = true ->
  cc t1 = CURLE_OK ->
  responseCode t1 = HTTP_OK ->
  classifies E (received t0 ++ received t1) (Success wx) ->
  WeatherFetch E fuel _lat _lon _radius_nm w
  = (Ok true,
     publish wx
       (extend w
          [EvSetUrl (weather_url E _radius_nm _lon _lat);
           EvPerform rq0;
           EvProcess (received t0);
           EvLog logWARN (WARN_NO_WEATHER _radius_nm);
           EvSetUrl (weather_url E MAX_WEATHER_RADIUS_NM _lon _lat);
           EvPerform rq1;
           EvProcess (received t0 ++ received t1)])).
Proof.
  intros rq0 t0 rq1 t1 Hfuel Hinit Hcc Hrc Hnf Hlt Hcc1 Hrc1 Hsucc.
  rewrite WeatherFetch_run by exact Hinit.
  destruct fuel as [|[|fuel]]; try lia.
  cbn [WeatherFetch_loop]. unfold bind.
  assert (Hrun : returns_false E (received t0) []) by (intros w0; apply Hnf).
  pose proof (first_pass_no_weather E _lat _lon _radius_nm w _ Hcc Hrc Hrun)
    as Hpass.
  fold rq0 t0 in Hpass. rewrite Hpass, Hlt. clear Hpass.
  cbn [app].
  pose proof (pass_direct_200 E _lat _lon
                (mkLocals MAX_WEATHER_RADIUS_NM (received t0) (errtxt t0)
                   (mkCURL false 1 (responseCode t0)))
                (mkFrame (extend w
                   [EvSetUrl (weather_url E _radius_nm _lon _lat);
                    EvPerform rq0; EvProcess (received t0);
                    EvLog logWARN (WARN_NO_WEATHER _radius_nm)]) false)
                Hcc1 Hrc1) as Hpass.
  cbn [radius_nm readBuf pCurl sslNoRevoke transfersDone globals bRet
       extend netwTimeout] in Hpass.
  change (mkRequest (weather_url E MAX_WEATHER_RADIUS_NM _lon _lat)
            (netwTimeout w) false) with rq1 in Hpass.
  fold t1 in Hpass. rewrite (Hsucc _) in Hpass.
  rewrite Hpass. cbn [globals bRet]. unfold publish, extend.
  cbn [trace netwTimeout weather]. rewrite <- !app_assoc. reflexivity.
Qed.

Lemma widening_retry_finds_weather_witness :
  let E := Sample.env [Sample.http_200 "<data/>";
                       Sample.http_200 "<altim_in_hg>29.92</altim_in_hg>"] in
  fst (WeatherFetch E 2 51%float 7%float 50%float Sample.world0) = Ok true /\
  published (trace (snd (WeatherFetch E 2 51%float 7%float 50%float
                           Sample.world0)))
  = [mkWeather 1013.2078857421875%float NAN NAN "" ""].
Proof.
  cbv zeta.
  rewrite (widening_retry_finds_weather
             (Sample.env [Sample.http_200 "<data/>";
                          Sample.http_200 "<altim_in_hg>29.92</altim_in_hg>"])
             2 51%float 7%float 50%float Sample.world0
             (mkWeather 1013.2078857421875%float NAN NAN "" "")).
  - split; reflexivity.
  - lia.
  - reflexivity.
  - reflexivity.
  - reflexivity.
  - intros w. reflexivity.
  - reflexivity.
  - reflexivity.
  - reflexivity.
  - intros w. vm_compute. reflexivity.
Defined.

(** X30 -- no handle, no fetch: if [curl_easy_init] fails, the worker logs
    that one error and returns [false]; no request is set up, no transfer
    performed, nothing interpreted, and the sink keeps its value -- for
    every position and radius and without any fuel. *)
Theorem no_handle_no_fetch (E : Env) (fuel : nat)
  (_lat _lon _radius_nm : float) (w : World) :
  curl_easy_init_ok E = false ->
  WeatherFetch E fuel _lat _lon _radius_nm w
  = (Ok false, extend w [EvLog logERR ERR_CURL_EASY_INIT]) /\
  urls_set (trace (snd (WeatherFetch E fuel _lat _lon _radius_nm w)))
  = urls_set (trace w) /\
  performed (trace (snd (WeatherFetch E fuel _lat _lon _radius_nm w)))
  = performed (trace w) /\
  processed (trace (snd (WeatherFetch E fuel _lat _lon _radius_nm w)))
  = processed (trace w) /\
  weather (snd (WeatherFetch E fuel _lat _lon _radius_nm w)) = weather w.
Proof.
  intros Hinit.
  assert (H : WeatherFetch E fuel _lat _lon _radius_nm w
              = (Ok false, extend w [EvLog logERR ERR_CURL_EASY_INIT])).
  { unfold WeatherFetch, WeatherFetch_try. rewrite Hinit. reflexivity. }
  rewrite H. cbn [snd extend trace weather].
  rewrite urls_set_app, performed_app, processed_app. cbn.
  rewrite !app_nil_r. repeat split; reflexivity.
Qed.

Lemma no_handle_no_fetch_witness :
  WeatherFetch
    (mkEnv Sample.stof_decimal Sample.to_binary32 Sample.is_revocation_error
       false
       (Sample.scripted [Sample.http_200 "<altim_in_hg>29.92</altim_in_hg>"]))
    0 51%float 7%float 50%float Sample.world0
  = (Ok false, extend Sample.world0 [EvLog logERR ERR_CURL_EASY_INIT]).
Proof.
  apply (no_handle_no_fetch
           (mkEnv Sample.stof_decimal Sample.to_binary32
              Sample.is_revocation_error false
              (Sample.scripted
                 [Sample.http_200 "<altim_in_hg>29.92</altim_in_hg>"]))
           0 51%float 7%float 50%float Sample.world0).
  reflexivity.
Defined.

(** * LiveTraffic.h *)

(** ** strAtMost *)

Section StrAtMostFacts.

Lemma substring_front_length (s : string) (n : nat) :
  n <= length s -> length (substring 0 n s) = n.
Proof.
  intros H. destruct (substring_cut s 0 n ltac:(lia)) as (_ & _ & _ & _ & Hl).
  exact Hl.
Qed.

Lemma substring_whole (s : string) : substring 0 (length s) s = s.
Proof.
  rewrite <- (append_nil_r s) at 2. apply substring_0_app.
Qed.

Lemma size_t_of_int_nonneg (m : Z) :
  (0 <= m < 2 ^ 64)%Z -> size_t_of_int m = m.
Proof. intros H. unfold size_t_of_int. now apply Z.mod_small. Qed.

Lemma size_t_of_int_neg (m : Z) :
  (- 2 ^ 64 <= m < 0)%Z -> size_t_of_int m = (2 ^ 64 + m)%Z.
Proof.
  intros H. unfold size_t_of_int.
  rewrite <- (Z.mod_add m 1 (2 ^ 64)) by lia.
  rewrite Z.mod_small; lia.
Qed.

End StrAtMostFacts.

(** X15 -- [strAtMost] keeps its promise from 3 up: for every limit [m]
    from 3 to [INT_MAX] the result is at most [m] characters long; a text
    that fits is returned as it is; a longer one is cut to its first [m-3]
    characters followed by three dots, [m] characters in all; and limiting
    the result again changes nothing. *)
Theorem strAtMost_keeps_limit (s : string) (m : Z) :
  (3 <= m < 2 ^ 31)%Z ->
  (Z.of_nat (length (strAtMost s m)) <= m)%Z /\
  ((Z.of_nat (length s) <= m)%Z -> strAtMost s m = s) /\
  ((m < Z.of_nat (length s))%Z ->
   strAtMost s m = substr s 0 (Z.to_nat (m - 3)) ++ "..." /\
   Z.of_nat (length (strAtMost s m)) = m) /\
  strAtMost (strAtMost s m) m = strAtMost s m.
Proof.
  intros Hm.
  assert (Hfit : forall t, (Z.of_nat (length t) <= m)%Z -> strAtMost t m = t).
  { intros t Ht. unfold strAtMost. rewrite size_t_of_int_nonneg by lia.
    apply Z.leb_le in Ht. now rewrite Ht. }
  assert (Hcut : (m < Z.of_nat (length s))%Z ->
                 strAtMost s m = substr s 0 (Z.to_nat (m - 3)) ++ "..." /\
                 Z.of_nat (length (strAtMost s m)) = m).
  { intros Hlong. unfold strAtMost, substr_front.
    rewrite !size_t_of_int_nonneg by lia.
    apply Z.leb_gt in Hlong as Hb. rewrite Hb.
    rewrite Z.min_l by lia. split; [reflexivity|].
    rewrite length_append. unfold substr.
    rewrite substring_front_length by lia. cbn [length]. lia. }
  assert (Hlen : (Z.of_nat (length (strAtMost s m)) <= m)%Z).
  { destruct (Z_le_gt_dec (Z.of_nat (length s)) m) as [Hle|Hgt].
    - now rewrite Hfit.
    - destruct Hcut as [_ ->]; lia. }
  split; [exact Hlen|]. split; [apply Hfit|]. split; [exact Hcut|].
  apply Hfit, Hlen.
Qed.

Lemma strAtMost_keeps_limit_witness :
  strAtMost "Lufthansa Cargo" 10 = substr "Lufthansa Cargo" 0 7 ++ "..." /\
  Z.of_nat (length (strAtMost "Lufthansa Cargo" 10)) = 10%Z.
Proof.
  apply (strAtMost_keeps_limit "Lufthansa Cargo" 10 ltac:(lia)).
  reflexivity.
Defined.

(** X16 -- below 3 the limit is not kept: for a limit [m] of 0, 1 or 2 a
    text longer than [m] is not cut at all; [m-3] is negative, as a
    [size_t] count it exceeds every length, and the result is the whole
    text followed by three dots. *)
Theorem strAtMost_small_limit_grows (s : string) (m : Z) :
  (0 <= m < 3)%Z ->
  (m < Z.of_nat (length s) < 2 ^ 63)%Z ->
  strAtMost s m = s ++ "..." /\
  (m < Z.of_nat (length s) < Z.of_nat (length (strAtMost s m)))%Z.
Proof.
  intros Hm Hs.
  assert (H : strAtMost s m = s ++ "...").
  { unfold strAtMost, substr_front.
    rewrite size_t_of_int_nonneg by lia.
    rewrite size_t_of_int_neg by lia.
    assert (Hb : (Z.of_nat (length s) <=? m)%Z = false) by (apply Z.leb_gt; lia).
    rewrite Hb, Z.min_r by lia. rewrite Nat2Z.id. unfold substr.
    now rewrite substring_whole. }
  split; [exact H|]. rewrite H, length_append. cbn [length]. lia.
Qed.

Lemma strAtMost_small_limit_grows_witness :
  strAtMost "KLM" 2 = "KLM" ++ "...".
Proof.
  apply (strAtMost_small_limit_grows "KLM" 2); cbn; lia.
Defined.

(** X17 -- a negative limit limits nothing: converted to [size_t] for the
    comparison a negative [m] is larger than every length, so the text is
    returned as it is. *)
Theorem strAtMost_negative_limit (s : string) (m : Z) :
  (- 2 ^ 31 <= m < 0)%Z ->
  (Z.of_nat (length s) < 2 ^ 63)%Z ->
  strAtMost s m = s.
Proof.
  intros Hm Hs. unfold strAtMost. rewrite size_t_of_int_neg by lia.
  assert (Hb : (Z.of_nat (length s) <=? 2 ^ 64 + m)%Z = true)
    by (apply Z.leb_le; lia).
  now rewrite Hb.
Qed.

Lemma strAtMost_negative_limit_witness :
  strAtMost "Lufthansa Cargo" (-1) = "Lufthansa Cargo".
Proof.
  apply (strAtMost_negative_limit "Lufthansa Cargo" (-1)); cbn; lia.
Defined.

(** ** push_back_unique *)

Section PushBackUniqueFacts.

Context {T : Type} (eqb : T -> T -> bool).

Hypothesis eqb_eq : forall x y, eqb x y = true <-> x = y.

Lemma std_find_le (l : list T) (k : T) : std_find eqb l k <= List.length l.
Proof.
  induction l as [|x l IH]; simpl; [lia|].
  destruct (eqb x k); lia.
Qed.

(** [std::find] returns [cend()] exactly when no element equals the key. *)
Lemma std_find_end (l : list T) (k : T) :
  std_find eqb l k = List.length l <-> ~ In k l.
Proof.
  induction l as [|x l IH]; simpl.
  - split; auto.
  - destruct (eqb x k) eqn:Hx.
    + apply eqb_eq in Hx. split; [discriminate|]. intros H. elim H. auto.
    + assert (Hne : x <> k).
      { intros Heq. apply eqb_eq in Heq. congruence. }
      split.
      * intros H. injection H as H. apply IH in H. intros [Hin|Hin]; auto.
      * intros H. f_equal. apply IH. auto.
Qed.

Lemma std_find_In (l : list T) (k : T) :
  std_find eqb l k <> List.length l -> In k l.
Proof.
  induction l as [|x l IH]; simpl; [congruence|].
  destruct (eqb x k) eqn:Hx.
  - apply eqb_eq in Hx. auto.
  - intros H. right. apply IH. congruence.
Qed.

Lemma push_back_unique_new (l : list T) (k : T) :
  ~ In k l -> push_back_unique eqb l k = (l ++ [k])%list.
Proof.
  intros H. unfold push_back_unique.
  apply std_find_end in H. rewrite H. now rewrite Nat.eqb_refl.
Qed.

Lemma push_back_unique_old (l : list T) (k : T) :
  In k l -> push_back_unique eqb l k = l.
Proof.
  intros H. unfold push_back_unique.
  destruct (std_find eqb l k =? List.length l)%nat eqn:He; [|reflexivity].
  apply Nat.eqb_eq, std_find_end in He. contradiction.
Qed.

Lemma push_back_unique_cases (l : list T) (k : T) :
  (In k l /\ push_back_unique eqb l k = l) \/
  (~ In k l /\ push_back_unique eqb l k = (l ++ [k])%list).
Proof.
  unfold push_back_unique.
  destruct (std_find eqb l k =? List.length l)%nat eqn:He.
  - right. apply Nat.eqb_eq, std_find_end in He. auto.
  - left. split; [|reflexivity].
    apply Nat.eqb_neq in He. now apply std_find_In.
Qed.

Lemma fold_push_back_unique (keys : list T) :
  forall acc,
    NoDup acc ->
    NoDup (fold_left (push_back_unique eqb) keys acc) /\
    (forall x, In x (fold_left (push_back_unique eqb) keys acc)
               <-> In x acc \/ In x keys) /\
    exists added, fold_left (push_back_unique eqb) keys acc = (acc ++ added)%list.
Proof.
  induction keys as [|k keys IH]; intros acc Hnd; simpl.
  - split; [exact Hnd|]. split; [intros x; tauto|].
    exists []. now rewrite app_nil_r.
  - assert (Hnd' : NoDup (push_back_unique eqb acc k)).
    { destruct (push_back_unique_cases acc k) as [[_ ->]|[Hn ->]]; auto.
      apply NoDup_app; [exact Hnd | repeat constructor; auto |].
      intros x Hx [<-|[]]. contradiction. }
    destruct (IH _ Hnd') as (H1 & H2 & added & H3).
    split; [exact H1|]. split.
    + intros x. rewrite H2.
      destruct (push_back_unique_cases acc k) as [[Hin ->]|[Hn ->]].
      * split; [tauto|]. intros [H|[<-|H]]; auto.
      * rewrite in_app_iff. simpl. tauto.
    + rewrite H3.
      destruct (push_back_unique_cases acc k) as [[Hin ->]|[Hn ->]].
      * now exists added.
      * exists (k :: added). now rewrite <- app_assoc.
Qed.

End PushBackUniqueFacts.

(** X18 -- [push_back_unique] keeps a list free of duplicates: if
    [operator==] is equality and the list holds no element twice, then
    after the call it still holds none twice, it holds the key, it holds
    nothing else that was not there before, and what was there is still
    there in the same order, in front; a second call with the same key
    changes nothing. *)
Theorem push_back_unique_keeps_unique {T : Type} (eqb : T -> T -> bool)
  (l : list T) (k : T) :
  (forall x y, eqb x y = true <-> x = y) ->
  NoDup l ->
  NoDup (push_back_unique eqb l k) /\
  In k (push_back_unique eqb l k) /\
  (forall x, In x (push_back_unique eqb l k) <-> In x l \/ x = k) /\
  (exists added, push_back_unique eqb l k = (l ++ added)%list) /\
  push_back_unique eqb (push_back_unique eqb l k) k = push_back_unique eqb l k.
Proof.
  intros Heq Hnd.
  destruct (push_back_unique_cases eqb Heq l k) as [[Hin H]|[Hn H]].
  - rewrite H, H. split; [exact Hnd|]. split; [exact Hin|]. split.
    + intros x. split; [auto|]. intros [Hx| ->]; auto.
    + split; [|reflexivity]. exists []. now rewrite app_nil_r.
  - rewrite H. split.
    { apply NoDup_app; [exact Hnd | repeat constructor; auto |].
      intros x Hx [<-|[]]. contradiction. }
    split; [apply in_or_app; right; left; reflexivity|]. split.
    + intros x. rewrite in_app_iff. simpl. intuition.
    + split; [now exists [k]|].
      apply push_back_unique_old; [exact Heq|].
      apply in_or_app; right; left; reflexivity.
Qed.

Lemma push_back_unique_keeps_unique_witness :
  push_back_unique Nat.eqb [3; 1; 2] 1 = [3; 1; 2] /\
  push_back_unique Nat.eqb [3; 1; 2] 5 = [3; 1; 2; 5] /\
  NoDup (push_back_unique Nat.eqb [3; 1; 2] 5).
Proof.
  split; [reflexivity|]. split; [reflexivity|].
  apply (push_back_unique_keeps_unique Nat.eqb [3; 1; 2] 5 Nat.eqb_eq).
  repeat constructor; simpl; intuition lia.
Defined.

(** X19 -- pushing a sequence of keys through [push_back_unique] into the
    empty list removes the duplicates: the result holds no element twice
    and holds exactly the keys pushed; and pushed into a duplicate-free
    list, the keys leave what was there in front. *)
Theorem push_back_unique_dedups {T : Type} (eqb : T -> T -> bool)
  (keys acc : list T) :
  (forall x y, eqb x y = true <-> x = y) ->
  NoDup acc ->
  NoDup (fold_left (push_back_unique eqb) keys []) /\
  (forall x, In x (fold_left (push_back_unique eqb) keys []) <-> In x keys) /\
  List.length (fold_left (push_back_unique eqb) keys []) <= List.length keys /\
  NoDup (fold_left (push_back_unique eqb) keys acc) /\
  exists added, fold_left (push_back_unique eqb) keys acc = (acc ++ added)%list.
Proof.
  intros Heq Hnd.
  destruct (fold_push_back_unique eqb Heq keys [] (NoDup_nil T))
    as (H1 & H2 & _).
  destruct (fold_push_back_unique eqb Heq keys acc Hnd) as (H3 & _ & H4).
  split; [exact H1|]. split; [intros x; rewrite H2; simpl; tauto|].
  split; [|split; [exact H3 | exact H4]].
  apply NoDup_incl_length; [exact H1|].
  intros x Hx. apply H2 in Hx. simpl in Hx. tauto.
Qed.

Lemma push_back_unique_dedups_witness :
  fold_left (push_back_unique Nat.eqb) [2; 7; 2; 1; 7] [] = [2; 7; 1] /\
  NoDup (fold_left (push_back_unique Nat.eqb) [2; 7; 2; 1; 7] []).
Proof.
  split; [reflexivity|].
  apply (push_back_unique_dedups Nat.eqb [2; 7; 2; 1; 7] [] Nat.eqb_eq).
  constructor.
Defined.

(** * LTImgWindow.h *)

(** X20 -- where a window mode puts the window: [toPosMode] answers "VR"
    exactly for [WND_MODE_VR] and, while VR is enabled, for the two
    "... or VR" modes; "popped out" exactly for [WND_MODE_POPOUT];
    "centered" exactly for [WND_MODE_FLOAT_CENTERED] and, while VR is not
    enabled, for [WND_MODE_FLOAT_CNT_VR]; never a full-screen mode; and
    free positioning in all other cases, the modes "none" and "close"
    included. *)
Theorem toPosMode_by_result (vr : bool) (m : WndMode) :
  (toPosMode vr m = xplm_WindowVR <->
   m = WND_MODE_VR \/
   vr = true /\ (m = WND_MODE_FLOAT_OR_VR \/ m = WND_MODE_FLOAT_CNT_VR)) /\
  (toPosMode vr m = xplm_WindowPopOut <-> m = WND_MODE_POPOUT) /\
  (toPosMode vr m = xplm_WindowCenterOnMonitor <->
   m = WND_MODE_FLOAT_CENTERED \/ vr = false /\ m = WND_MODE_FLOAT_CNT_VR) /\
  toPosMode vr m <> xplm_WindowFullScreenOnMonitor /\
  toPosMode vr m <> xplm_WindowFullScreenOnAllMonitors /\
  (toPosMode vr m = xplm_WindowPositionFree <->
   m = WND_MODE_NONE \/ m = WND_MODE_FLOAT \/ m = WND_MODE_CLOSE \/
   vr = false /\ m = WND_MODE_FLOAT_OR_VR).
Proof.
  destruct vr, m; cbn;
    repeat match goal with
           | |- _ /\ _ => split
           | |- _ <-> _ => split
           end;
    try discriminate; try reflexivity; intros H;
    repeat match goal with
           | H : _ \/ _ |- _ => destruct H
           | H : _ /\ _ |- _ => destruct H
           end;
    try discriminate; auto 10.
Qed.

(** X21 -- decoration and layer go together: a window decorates itself
    exactly when it lies in the flight-overlay layer, and that is exactly
    for the HUD style; every other style, the unset one included, gets the
    round rectangle in the floating-windows layer. *)
Theorem toDeco_toLayer_agree (s : WndStyle) :
  (toDeco s = xplm_WindowDecorationSelfDecoratedResizable <->
   s = WND_STYLE_HUD) /\
  (toLayer s = xplm_WindowLayerFlightOverlay <-> s = WND_STYLE_HUD) /\
  (toDeco s = xplm_WindowDecorationSelfDecoratedResizable <->
   toLayer s = xplm_WindowLayerFlightOverlay) /\
  (s <> WND_STYLE_HUD ->
   toDeco s = xplm_WindowDecorationRoundRectangle /\
   toLayer s = xplm_WindowLayerFloatingWindows).
Proof.
  destruct s; cbn; repeat split; intros; try discriminate; try reflexivity;
    try congruence.
Qed.

(** X22 -- an empty rectangle is the all-zero rectangle: [empty()] holds
    exactly of the rectangle the default constructor makes, which is what
    [clear()] leaves; so a rectangle of no area away from the origin is not
    empty. *)
Theorem WndRect_empty_iff_default (r : Wnd.WndRect) :
  (Wnd.empty r = true <-> r = Wnd.WndRect_default) /\
  Wnd.empty (Wnd.clear r) = true /\
  Wnd.clear r = Wnd.WndRect_default /\
  (forall l t, (l <> 0 \/ t <> 0)%Z ->
     Wnd.empty (Wnd.WndRect_ltrb l t l t) = false).
Proof.
  split; [|split; [reflexivity|split; [reflexivity|]]].
  - destruct r as [[x1 y1] [x2 y2]].
    unfold Wnd.empty, Wnd.not_int, Wnd.WndRect_default. cbn. split.
    + intros H. apply andb_prop in H as [H H4].
      apply andb_prop in H as [H H3]. apply andb_prop in H as [H1 H2].
      apply Z.eqb_eq in H1, H2, H3, H4. now subst.
    + intros H. injection H as -> -> -> ->. reflexivity.
  - intros l t H. unfold Wnd.empty, Wnd.not_int, Wnd.WndRect_ltrb. cbn.
    destruct (Z.eqb_spec l 0), (Z.eqb_spec t 0); cbn; try reflexivity. lia.
Qed.

(** * ACInfoWnd.cpp *)

(** ** SearchAndSetFlightData *)

Section SearchFacts.

Import ACIWnd.

Context {FDKeyTy LTFlightData : Type} (D : @Deps FDKeyTy LTFlightData).

(** The counting loop stops at the [i]-th entry that has an aircraft. *)
Lemma ith_with_ac_nth (mapFd : mapLTFlightDataTy) :
  forall i, (1 <= i)%Z ->
    ith_with_ac D i mapFd
    = nth_error (filter (fun mfd => hasAc D (snd mfd)) mapFd)
        (Z.to_nat (i - 1)).
Proof.
  induction mapFd as [|mfd rest IH]; intros i Hi; cbn [ith_with_ac filter].
  - now destruct (Z.to_nat (i - 1)).
  - destruct (hasAc D (snd mfd)); [|now apply IH].
    destruct (Z.eqb_spec (i - 1) 0) as [H0|Hn].
    + rewrite H0. reflexivity.
    + rewrite IH by lia.
      replace (Z.to_nat (i - 1)) with (S (Z.to_nat (i - 1 - 1))) by lia.
      reflexivity.
Qed.

Lemma find_if_Some (pred : FDKeyTy * LTFlightData -> bool)
  (mapFd : mapLTFlightDataTy) (mfd : FDKeyTy * LTFlightData) :
  find_if pred mapFd = Some mfd <->
  exists pre post,
    mapFd = (pre ++ mfd :: post)%list /\ pred mfd = true /\
    forall x, In x pre -> pred x = false.
Proof.
  induction mapFd as [|y rest IH]; cbn [find_if].
  - split; [discriminate|]. intros (pre & post & H & _). now destruct pre.
  - destruct (pred y) eqn:Hy.
    + split.
      * intros H. injection H as <-. exists [], rest. repeat split; auto.
        intros x [].
      * intros (pre & post & H & Hp & Hpre).
        destruct pre as [|z pre]; cbn in H; injection H as -> _;
          [reflexivity|].
        rewrite (Hpre z (or_introl eq_refl)) in Hy. discriminate.
    + rewrite IH. split.
      * intros (pre & post & -> & Hp & Hpre). exists (y :: pre), post.
        repeat split; auto. intros x [<-|Hx]; auto.
      * intros (pre & post & H & Hp & Hpre).
        destruct pre as [|z pre]; cbn in H; injection H as -> ->.
        -- congruence.
        -- exists pre, post. repeat split; auto. intros x Hx.
           apply Hpre. now right.
Qed.

Lemma find_if_None (pred : FDKeyTy * LTFlightData -> bool)
  (mapFd : mapLTFlightDataTy) :
  find_if pred mapFd = None <-> forall x, In x mapFd -> pred x = false.
Proof.
  induction mapFd as [|y rest IH]; cbn [find_if].
  - split; auto. intros _ x [].
  - destruct (pred y) eqn:Hy.
    + split; [discriminate|]. intros H.
      rewrite (H y (or_introl eq_refl)) in Hy. discriminate.
    + rewrite IH. split.
      * intros H x [<-|Hx]; auto.
      * intros H x Hx. apply H. now right.
Qed.

(** A character of ["0123456789"] has a code from 48 to 57. *)
Lemma digit_char_code (c : ascii) :
  find_char "0123456789" c 0 <> None ->
  48 <= nat_of_ascii c <= 57.
Proof.
  destruct c as [[] [] [] [] [] [] [] []]; vm_compute; intros H;
    try (exfalso; apply H; reflexivity); split;
    repeat (apply le_n || apply le_S).
Qed.

Lemma all_digits_cons (c : ascii) (s : string) :
  find_first_not_of (String c s) "0123456789" = None ->
  find_char "0123456789" c 0 <> None /\
  find_first_not_of s "0123456789" = None.
Proof.
  cbn [find_first_not_of].
  destruct (find_char "0123456789" c 0); [|discriminate].
  destruct (find_first_not_of s "0123456789"); [discriminate|].
  split; [discriminate|reflexivity].
Qed.

(** One to three decimal digits make a number from 0 to 999. *)
Lemma stoi_range (e : string) :
  length e <= 3 ->
  find_first_not_of e "0123456789" = None ->
  (0 <= stoi e <= 999)%Z.
Proof.
  intros Hlen Hd. unfold stoi.
  destruct e as [|a [|b [|c [|d e]]]]; cbn [list_ascii_of_string fold_left].
  - lia.
  - apply all_digits_cons in Hd as [Ha _]. apply digit_char_code in Ha. lia.
  - apply all_digits_cons in Hd as [Ha Hd]. apply digit_char_code in Ha.
    apply all_digits_cons in Hd as [Hb _]. apply digit_char_code in Hb. lia.
  - apply all_digits_cons in Hd as [Ha Hd]. apply digit_char_code in Ha.
    apply all_digits_cons in Hd as [Hb Hd]. apply digit_char_code in Hb.
    apply all_digits_cons in Hd as [Hc _]. apply digit_char_code in Hc. lia.
  - cbn [length] in Hlen. lia.
Qed.

End SearchFacts.

Section SearchTheorems.

Import ACIWnd.

(** X23 -- search by index: when the trimmed entry consists of one to
    three decimal digits it is read as a number [i] from 0 to 999, and the
    search picks the [i]-th flight that has an aircraft, counting from 1 in
    the order of the map and passing over flights without aircraft; its key
    becomes the window's key.  The search fails exactly when [i] is 0 or
    fewer than [i] flights have an aircraft; whether any flight would
    match the digits as a text plays no part. *)
Theorem SearchAndSetFlightData_by_index {FDKeyTy LTFlightData : Type}
  (D : @Deps FDKeyTy LTFlightData)
  (mapFd : mapLTFlightDataTy) (this : ACIWnd) :
  let e := trim D (keyEntry this) in
  let this1 := mkACIWnd (bAuto this) e (acKey this) (calls this) in
  let withAc := filter (fun mfd => hasAc D (snd mfd)) mapFd in
  e <> "" ->
  length e <= 3 ->
  find_first_not_of e "0123456789" = None ->
  (0 <= stoi e <= 999)%Z /\
  SearchAndSetFlightData D mapFd this
  = match (if (0 <? stoi e)%Z
           then nth_error withAc (Z.to_nat (stoi e - 1)) else None) with
    | Some mfd => (true, SetAcKey D (key D (snd mfd)) this1)
    | None => (false, mkACIWnd (bAuto this) e (key_clear D (acKey this))
                        (calls this))
    end /\
  (fst (SearchAndSetFlightData D mapFd this) = true <->
   (1 <= stoi e <= Z.of_nat (List.length withAc))%Z).
Proof.
  intros e this1 withAc Hne Hlen Hdig.
  pose proof (stoi_range e Hlen Hdig) as Hrange.
  assert (Heq : SearchAndSetFlightData D mapFd this
                = match (if (0 <? stoi e)%Z
                         then nth_error withAc (Z.to_nat (stoi e - 1))
                         else None) with
                  | Some mfd => (true, SetAcKey D (key D (snd mfd)) this1)
                  | None => (false, mkACIWnd (bAuto this) e
                                      (key_clear D (acKey this)) (calls this))
                  end).
  { unfold SearchAndSetFlightData. cbn [keyEntry bAuto acKey calls].
    fold e. apply empty_false in Hne. rewrite Hne. cbn [negb].
    apply Nat.leb_le in Hlen. rewrite Hlen, Hdig. cbn [andb].
    destruct (Z.ltb_spec 0 (stoi e)) as [Hpos|Hzero]; [|reflexivity].
    rewrite ith_with_ac_nth by lia. reflexivity. }
  split; [exact Hrange|]. split; [exact Heq|].
  rewrite Heq.
  destruct (Z.ltb_spec 0 (stoi e)) as [Hpos|Hzero].
  - destruct (nth_error withAc (Z.to_nat (stoi e - 1))) as [mfd|] eqn:Hn.
    + cbn [fst]. split; [intros _|reflexivity].
      assert (Z.to_nat (stoi e - 1) < List.length withAc)
        by (apply nth_error_Some; congruence).
      lia.
    + cbn [fst]. split; [discriminate|]. intros H.
      apply nth_error_None in Hn. lia.
  - cbn [fst]. split; [discriminate|lia].
Qed.

Lemma SearchAndSetFlightData_by_index_witness :
  acKey (snd (SearchAndSetFlightData SampleWnd.deps SampleWnd.mapFd
                (SampleWnd.wnd " 2 "))) = "A0B1C2" /\
  fst (SearchAndSetFlightData SampleWnd.deps SampleWnd.mapFd
         (SampleWnd.wnd "4")) = false.
Proof.
  destruct (SearchAndSetFlightData_by_index SampleWnd.deps SampleWnd.mapFd
              (SampleWnd.wnd " 2 ")) as (_ & H & _).
  - discriminate.
  - cbn. lia.
  - reflexivity.
  - rewrite H. split; reflexivity.
Defined.

(** X24 -- search by text: when the trimmed entry is not empty and is
    longer than three characters or holds a character that is no digit, the
    search picks the first flight in the order of the map that matches the
    entry, and fails exactly when none matches.  Four digits and more are a
    text, not an index. *)
Theorem SearchAndSetFlightData_by_text {FDKeyTy LTFlightData : Type}
  (D : @Deps FDKeyTy LTFlightData)
  (mapFd : mapLTFlightDataTy) (this : ACIWnd) :
  let e := trim D (keyEntry this) in
  let this1 := mkACIWnd (bAuto this) e (acKey this) (calls this) in
  e <> "" ->
  3 < length e \/ find_first_not_of e "0123456789" <> None ->
  (forall pre mfd post,
     mapFd = (pre ++ mfd :: post)%list ->
     IsMatch D (snd mfd) e = true ->
     (forall x, In x pre -> IsMatch D (snd x) e = false) ->
     SearchAndSetFlightData D mapFd this
     = (true, SetAcKey D (key D (snd mfd)) this1)) /\
  ((forall x, In x mapFd -> IsMatch D (snd x) e = false) ->
   SearchAndSetFlightData D mapFd this
   = (false, mkACIWnd (bAuto this) e (key_clear D (acKey this))
               (calls this))) /\
  (fst (SearchAndSetFlightData D mapFd this) = true <->
   exists x, In x mapFd /\ IsMatch D (snd x) e = true).
Proof.
  intros e this1 Hne Htext.
  assert (Heq : SearchAndSetFlightData D mapFd this
                = match find_if (fun mfd => IsMatch D (snd mfd) e) mapFd with
                  | Some mfd => (true, SetAcKey D (key D (snd mfd)) this1)
                  | None => (false, mkACIWnd (bAuto this) e
                                      (key_clear D (acKey this)) (calls this))
                  end).
  { unfold SearchAndSetFlightData. cbn [keyEntry bAuto acKey calls].
    fold e. apply empty_false in Hne. rewrite Hne. cbn [negb].
    destruct Htext as [Hlong|Hnd].
    - apply Nat.leb_gt in Hlong. rewrite Hlong. reflexivity.
    - destruct (find_first_not_of e "0123456789"); [|congruence].
      rewrite andb_false_r. reflexivity. }
  split; [|split].
  - intros pre mfd post Hmap Hm Hpre. rewrite Heq.
    assert (H : find_if (fun mfd => IsMatch D (snd mfd) e) mapFd = Some mfd)
      by (apply find_if_Some; exists pre, post; auto).
    now rewrite H.
  - intros Hnone. rewrite Heq.
    assert (H : find_if (fun mfd => IsMatch D (snd mfd) e) mapFd = None)
      by (now apply find_if_None).
    now rewrite H.
  - rewrite Heq.
    destruct (find_if (fun mfd => IsMatch D (snd mfd) e) mapFd) as [mfd|] eqn:Hf.
    + cbn [fst]. split; [intros _|reflexivity].
      apply find_if_Some in Hf as (pre & post & -> & Hm & _).
      exists mfd. split; [|exact Hm]. apply in_or_app. right. now left.
    + cbn [fst]. split; [discriminate|]. intros (x & Hin & Hm).
      rewrite (proj1 (find_if_None _ _) Hf x Hin) in Hm. discriminate.
Qed.

Lemma SearchAndSetFlightData_by_text_witness :
  acKey (snd (SearchAndSetFlightData SampleWnd.deps SampleWnd.mapFd
                (SampleWnd.wnd "1234"))) = "1234".
Proof.
  destruct (SearchAndSetFlightData_by_text SampleWnd.deps SampleWnd.mapFd
              (SampleWnd.wnd "1234")) as (H & _).
  - discriminate.
  - left. cbn. lia.
  - rewrite (H [SampleWnd.flight "3C4A21" true;
                SampleWnd.flight "4067E2" false;
                SampleWnd.flight "A0B1C2" true]
               (SampleWnd.flight "1234" true) []).
    + reflexivity.
    + reflexivity.
    + reflexivity.
    + intros x [<-|[<-|[<-|[]]]]; reflexivity.
Defined.

Lemma ith_with_ac_In {FDKeyTy LTFlightData : Type}
  (D : @Deps FDKeyTy LTFlightData)
  (mapFd : mapLTFlightDataTy) :
  forall i mfd, ith_with_ac D i mapFd = Some mfd ->
                In mfd mapFd /\ hasAc D (snd mfd) = true.
Proof.
  induction mapFd as [|y rest IH]; intros i mfd; cbn [ith_with_ac];
    [discriminate|].
  destruct (hasAc D (snd y)) eqn:Hy.
  - destruct (i - 1 =? 0)%Z.
    + intros H. injection H as <-. split; [now left|exact Hy].
    + intros H. apply IH in H as [H1 H2]. split; [now right|exact H2].
  - intros H. apply IH in H as [H1 H2]. split; [now right|exact H2].
Qed.

(** X25 -- what a search leaves behind, for every entry and every map:
    AUTO mode is not touched.  On success the window's key is the key of a
    flight of the map, the entry field shows that key instead of what was
    typed, the title has been set from the new key and the keyboard focus
    given back, in this order.  On failure the entry field keeps the
    trimmed text, the key is cleared, and no call is made: the window title
    is not refreshed.  An entry that is blank after trimming always
    fails. *)
Theorem SearchAndSetFlightData_outcome {FDKeyTy LTFlightData : Type}
  (D : @Deps FDKeyTy LTFlightData)
  (mapFd : mapLTFlightDataTy) (this : ACIWnd) :
  let b := fst (SearchAndSetFlightData D mapFd this) in
  let this' := snd (SearchAndSetFlightData D mapFd this) in
  bAuto this' = bAuto this /\
  (b = true ->
   exists mfd,
     In mfd mapFd /\
     acKey this' = key D (snd mfd) /\
     keyEntry this' = key_string D (acKey this') /\
     calls this'
     = (calls this
        ++ [SetWindowTitle (GetWndTitle D this'); ReturnKeyboardFocus])%list) /\
  (b = false ->
   keyEntry this' = trim D (keyEntry this) /\
   acKey this' = key_clear D (acKey this) /\
   calls this' = calls this) /\
  (trim D (keyEntry this) = "" -> b = false).
Proof.
  cbv zeta. unfold SearchAndSetFlightData. cbn [keyEntry bAuto acKey calls].
  set (e := trim D (keyEntry this)).
  set (fdIter :=
         if negb (empty e)
         then
           if (length e <=? 3)%nat &&
              match find_first_not_of e "0123456789" with
              | Some _ => false
              | None => true
              end
           then if (0 <? stoi e)%Z then ith_with_ac D (stoi e) mapFd else None
           else find_if (fun mfd => IsMatch D (snd mfd) e) mapFd
         else None).
  assert (Hin : forall mfd, fdIter = Some mfd -> In mfd mapFd).
  { intros mfd. unfold fdIter.
    destruct (negb (empty e)); [|discriminate].
    destruct ((length e <=? 3)%nat && _).
    - destruct (0 <? stoi e)%Z; [|discriminate].
      intros H. now apply ith_with_ac_In in H.
    - intros H. apply find_if_Some in H as (pre & post & -> & _).
      apply in_or_app. right. now left. }
  assert (Hblank : e = "" -> fdIter = None).
  { intros He. unfold fdIter. now rewrite He. }
  destruct fdIter as [mfd|] eqn:Hfd; cbn [fst snd].
  - split; [reflexivity|]. split; [|split; [discriminate|]].
    + intros _. exists mfd. split; [now apply Hin|].
      unfold SetAcKey, GetWndTitle. cbn. rewrite <- app_assoc.
      repeat split; reflexivity.
    + intros He. now apply Hblank in He.
  - split; [reflexivity|]. split; [discriminate|].
    split; [|reflexivity]. intros _. repeat split; reflexivity.
Qed.

End SearchTheorems.

(** ** The static functions *)

Section StaticsFacts.

Import ACIWnd.

Context {ptr : Type} (ptr_eqb : ptr -> ptr -> bool).

Hypothesis ptr_eqb_eq : forall p q, ptr_eqb p q = true <-> p = q.

Lemma list_remove_In (this q : ptr) (l : list ptr) :
  In q (list_remove ptr_eqb this l) <-> In q l /\ q <> this.
Proof.
  unfold list_remove. rewrite filter_In. split.
  - intros [Hin Hb]. split; [exact Hin|]. intros ->.
    rewrite (proj2 (ptr_eqb_eq this this) eq_refl) in Hb. discriminate.
  - intros [Hin Hne]. split; [exact Hin|].
    destruct (ptr_eqb q this) eqn:Hb; [|reflexivity].
    apply ptr_eqb_eq in Hb. contradiction.
Qed.

Lemma list_remove_length (this : ptr) (l : list ptr) :
  List.length (list_remove ptr_eqb this l) <= List.length l.
Proof. apply filter_length_le. Qed.

Lemma ptr_eq_dec (p q : ptr) : p = q \/ p <> q.
Proof.
  destruct (ptr_eqb p q) eqn:Hb.
  - left. now apply ptr_eqb_eq.
  - right. intros Heq. apply ptr_eqb_eq in Heq. congruence.
Qed.

(** The closing loop ends within as many passes as the list is long. *)
Lemma CloseAll_loop_spec (fuel : nat) :
  forall st : Statics,
    List.length (listACIWnd st) <= fuel ->
    exists st' ds,
      CloseAll_loop ptr_eqb fuel st = Some st' /\
      bAreShown st' = bAreShown st /\
      listACIWnd st' = [] /\
      wndCalls st' = (wndCalls st ++ map Delete ds)%list /\
      NoDup ds /\
      (forall p, In p ds <-> In p (listACIWnd st)) /\
      hd_error ds = hd_error (listACIWnd st).
Proof.
  induction fuel as [|fuel IH]; intros st Hlen.
  - destruct st as [b [|p l] c]; cbn in Hlen; [|lia].
    exists (mkStatics b [] c), []. cbn. rewrite app_nil_r.
    repeat split; auto using NoDup_nil.
  - destruct st as [b [|p l] c].
    + exists (mkStatics b [] c), []. cbn. rewrite app_nil_r.
      repeat split; auto using NoDup_nil.
    + cbn [CloseAll_loop listACIWnd].
      assert (Hp : list_remove ptr_eqb p (p :: l) = list_remove ptr_eqb p l).
      { unfold list_remove. cbn [filter].
        now rewrite (proj2 (ptr_eqb_eq p p) eq_refl). }
      destruct (IH (delete_wnd ptr_eqb p (mkStatics b (p :: l) c)))
        as (st' & ds & Hrun & Hb & Hl & Hc & Hnd & Hin & _).
      { cbn [delete_wnd listACIWnd]. rewrite Hp.
        pose proof (list_remove_length p l). cbn in Hlen. lia. }
      cbn [delete_wnd listACIWnd bAreShown wndCalls] in Hb, Hc, Hin.
      rewrite Hp in Hin.
      exists st', (p :: ds). split; [exact Hrun|]. split; [exact Hb|].
      split; [exact Hl|]. split; [|split; [|split; [|reflexivity]]].
      * rewrite Hc, <- app_assoc. reflexivity.
      * constructor; [|exact Hnd]. intros H. apply Hin in H.
        apply list_remove_In in H as [_ H]. now apply H.
      * intros q. cbn [In listACIWnd]. rewrite Hin, list_remove_In.
        destruct (ptr_eq_dec p q) as [->|Hne]; [tauto|].
        split; [tauto|]. intros [H|H]; [contradiction|].
        right. split; [exact H | congruence].
Qed.

End StaticsFacts.

Section StaticsTheorems.

Import ACIWnd.

(** X26 -- [CloseAll] deletes every window once: outside the VR camera
    view the loop ends, within as many passes as the list is long; the list
    is then empty, every window that was on it has been deleted, none of
    them twice -- a window listed more than once included, since the
    destructor takes every occurrence off the list -- and nothing else has
    been deleted.  In the VR camera view nothing happens at all. *)
Theorem CloseAll_deletes_each_once {ptr : Type} (ptr_eqb : ptr -> ptr -> bool)
  (fuel : nat) (IsVREnabled IsCameraViewOn : bool) (st : @Statics ptr) :
  (forall p q, ptr_eqb p q = true <-> p = q) ->
  List.length (listACIWnd st) <= fuel ->
  exists st',
    CloseAll ptr_eqb fuel IsVREnabled IsCameraViewOn st = Some st' /\
    bAreShown st' = bAreShown st /\
    if IsVREnabled && IsCameraViewOn then st' = st
    else
      listACIWnd st' = [] /\
      exists ds,
        wndCalls st' = (wndCalls st ++ map Delete ds)%list /\
        NoDup ds /\
        (forall p, In p ds <-> In p (listACIWnd st)).
Proof.
  intros Heq Hlen. unfold CloseAll.
  destruct (IsVREnabled && IsCameraViewOn).
  - exists st. repeat split; reflexivity.
  - destruct (CloseAll_loop_spec ptr_eqb Heq fuel st Hlen)
      as (st' & ds & Hrun & Hb & Hl & Hc & Hnd & Hin & _).
    exists st'. split; [exact Hrun|]. split; [exact Hb|].
    split; [exact Hl|]. exists ds. auto.
Qed.

Lemma CloseAll_deletes_each_once_witness :
  CloseAll Nat.eqb 3 true false (mkStatics true [7; 4; 7] [])
  = Some (mkStatics true [] [Delete 7; Delete 4]).
Proof.
  destruct (CloseAll_deletes_each_once Nat.eqb 3 true false
              (mkStatics true [7; 4; 7] []) Nat.eqb_eq (le_n 3))
    as (st' & Hrun & _).
  rewrite Hrun. revert Hrun. cbn. intros H. exact (eq_sym H).
Defined.

Lemma visible_of_told {ptr : Type} (ptr_eqb : ptr -> ptr -> bool)
  (b : bool) (pWnd : ptr) (l : list ptr) (calls : list StaticCall) :
  visible_of ptr_eqb (calls ++ map (fun q => SetVisible q b) l) pWnd
  = if existsb (fun q => ptr_eqb q pWnd) l then Some b
    else visible_of ptr_eqb calls pWnd.
Proof.
  unfold visible_of. rewrite fold_left_app.
  generalize (fold_left
                (fun v call =>
                   match call with
                   | SetVisible q b0 => if ptr_eqb q pWnd then Some b0 else v
                   | Delete _ => v
                   end) calls None).
  induction l as [|q l IH]; intros v; [reflexivity|].
  cbn [map fold_left existsb]. rewrite IH.
  destruct (ptr_eqb q pWnd); cbn [orb]; [|reflexivity].
  now destruct (existsb (fun q0 => ptr_eqb q0 pWnd) l).
Qed.

(** X27 -- hiding and showing keeps windows and flag in step: a call of
    [ToggleHideShowAll] flips [bAreShown] and returns the new value; every
    window on the list has then last been told just that value by
    [SetVisible], while a window not on the list has been told nothing new;
    the list itself is untouched, and a second call brings the flag back to
    where it was. *)
Theorem ToggleHideShowAll_in_step {ptr : Type} (ptr_eqb : ptr -> ptr -> bool)
  (st : @Statics ptr) :
  (forall p q, ptr_eqb p q = true <-> p = q) ->
  let b := fst (ToggleHideShowAll st) in
  let st' := snd (ToggleHideShowAll st) in
  b = negb (bAreShown st) /\
  bAreShown st' = b /\
  listACIWnd st' = listACIWnd st /\
  (forall pWnd, In pWnd (listACIWnd st) ->
     visible_of ptr_eqb (wndCalls st') pWnd = Some b) /\
  (forall pWnd, ~ In pWnd (listACIWnd st) ->
     visible_of ptr_eqb (wndCalls st') pWnd
     = visible_of ptr_eqb (wndCalls st) pWnd) /\
  fst (ToggleHideShowAll st') = bAreShown st /\
  bAreShown (snd (ToggleHideShowAll st')) = bAreShown st.
Proof.
  intros Heq. cbv zeta. unfold ToggleHideShowAll.
  cbn [fst snd bAreShown listACIWnd wndCalls].
  split; [reflexivity|]. split; [reflexivity|]. split; [reflexivity|].
  split; [|split; [|split; apply negb_involutive]].
  - intros pWnd Hin. rewrite visible_of_told.
    assert (H : existsb (fun q => ptr_eqb q pWnd) (listACIWnd st) = true).
    { apply existsb_exists. exists pWnd. split; [exact Hin|].
      now apply Heq. }
    now rewrite H.
  - intros pWnd Hnin. rewrite visible_of_told.
    destruct (existsb (fun q => ptr_eqb q pWnd) (listACIWnd st)) eqn:H;
      [|reflexivity].
    apply existsb_exists in H as (q & Hq & Hb). apply Heq in Hb. subst q.
    contradiction.
Qed.

Lemma ToggleHideShowAll_in_step_witness :
  visible_of Nat.eqb
    (wndCalls (snd (ToggleHideShowAll (mkStatics true [7; 4] [])))) 4
  = Some false.
Proof.
  destruct (ToggleHideShowAll_in_step Nat.eqb (mkStatics true [7; 4] [])
              Nat.eqb_eq) as (_ & _ & _ & H & _).
  apply (H 4). right. left. reflexivity.
Defined.

End StaticsTheorems.

(** ** The window title *)

Section TitleTheorems.

Import ACIWnd.

(** X28 -- the window title follows the key: setting a key that is not
    empty sets the title to the key's text and gives the keyboard focus
    back, the entry field showing the key; clearing the key afterwards
    sets the title to the standard title again and empties the entry
    field, provided a cleared key is empty.  In AUTO mode both titles
    carry the suffix " (AUTO)".  Neither call changes the mode. *)
Theorem title_follows_key {FDKeyTy LTFlightData : Type}
  (D : @Deps FDKeyTy LTFlightData) (_key : FDKeyTy) (this : ACIWnd) :
  key_empty D _key = false ->
  (forall k, key_empty D (key_clear D k) = true) ->
  let suffix := if bAuto this then " (AUTO)" else "" in
  let set := SetAcKey D _key this in
  let cleared := ClearAcKey D set in
  GetWndTitle D set = key_string D _key ++ suffix /\
  keyEntry set = key_string D _key /\
  GetWndTitle D cleared = ACI_WND_TITLE D ++ suffix /\
  keyEntry cleared = "" /\
  calls cleared
  = (calls this
     ++ [SetWindowTitle (key_string D _key ++ suffix);
         ReturnKeyboardFocus;
         SetWindowTitle (ACI_WND_TITLE D ++ suffix)])%list /\
  bAuto set = bAuto this /\ bAuto cleared = bAuto this.
Proof.
  intros Hk Hclear. cbv zeta.
  unfold ClearAcKey, SetAcKey, GetWndTitle.
  cbn [bAuto keyEntry acKey calls]. rewrite Hk, Hclear, <- !app_assoc.
  repeat split; reflexivity.
Qed.

Lemma title_follows_key_witness :
  calls (ClearAcKey SampleWnd.deps
           (SetAcKey SampleWnd.deps "A0B1C2"
              (mkACIWnd true "a0" EmptyString [])))
  = [SetWindowTitle "A0B1C2 (AUTO)"; ReturnKeyboardFocus;
     SetWindowTitle "A/C Info (AUTO)"].
Proof.
  destruct (title_follows_key SampleWnd.deps "A0B1C2"
              (mkACIWnd true "a0" EmptyString []))
    as (_ & _ & _ & _ & H & _).
  - reflexivity.
  - intros k. reflexivity.
  - exact H.
Defined.

End TitleTheorems.
